(** * Non-transitive dice game: the fair-random protocol and round resolution

    A shallow embedding of the two program texts of the repository,

      - [src/app.js]            (modules [App] below), and
      - [src/unnamed/part_000]  (module [Part000] below),

    together with the parts of the JavaScript and Node.js runtime they call.
    Functions keep the names they have in the source.  Code that is the same,
    character for character, in both files is embedded once, before the two
    modules. *)

From Stdlib Require Import ZArith List String Ascii Bool Lia.
From Stdlib Require Import DecimalString.
From Stdlib Require DecimalPos.
Import ListNotations.

Local Open Scope string_scope.
Local Open Scope Z_scope.

(* ================================================================== *)
(** * The JavaScript values the program computes with                  *)
(* ================================================================== *)

(** A JavaScript number as [Number(...)] may produce it from a command-line
    argument.  The program only ever asks two things of such a number:
    [Number.isInteger(x)] and, for an integer, [x < 1]; so an integer carries
    its value and everything else ([NaN], the infinities, a finite number
    with a fractional part) is one case. *)
Inductive number : Type :=
| Int (z : Z)
| NonInt.

(** [Number.isInteger(x)] *)
Definition Number_isInteger (x : number) : bool :=
  match x with
  | Int _ => true
  | NonInt => false
  end.

(** The [%] operator on integers with a non-zero right operand: the result
    takes the sign of the dividend (truncated division), as [Z.rem] does. *)
Definition js_rem (a b : Z) : Z := Z.rem a b.

(** [a[i]] for an array [a] and an integer [i]: [undefined] (here [None])
    outside [0 .. a.length - 1], also for a negative [i]. *)
Definition array_get {A : Type} (a : list A) (i : Z) : option A :=
  if i <? 0 then None else nth_error a (Z.to_nat i).

(** [a.find(p)]: the first element, in index order, that satisfies [p];
    [undefined] (here [None]) when there is none. *)
Definition array_find {A : Type} (p : A -> bool) (a : list A) : option A :=
  List.find p a.

(** [String(z)] / [z.toString()] / [`${z}`] for an integer [z]: its decimal
    numeral, with a leading [-] when negative.  This is what JavaScript
    writes for a safe integer, one below 2^53 in absolute value; above, it
    rounds the digits, and from 10^21 on it writes an exponent.  The keys,
    the house's numbers, the numbers accepted from the user, the indices
    and the scores of a game are safe integers; the face of a die need not
    be, and what is stated below about a printed face is stated for dice
    whose faces are ([safe_faces]). *)
Definition toString (z : Z) : string :=
  NilZero.string_of_int (Z.to_int z).

(** [`${v}`] for a value that is an integer or [undefined]. *)
Definition show (v : option Z) : string :=
  match v with
  | Some z => toString z
  | None => "undefined"
  end.

(** [a.join(',')] on an array of integers. *)
Definition join (sep : string) (a : list Z) : string :=
  String.concat sep (map toString a).

(** [s.split(c)] for a one-character separator [c].  The result is never
    empty: [''.split(',')] is [['']]. *)
Fixpoint split (sep : ascii) (s : string) : list string :=
  match s with
  | EmptyString => [EmptyString]
  | String c s' =>
      if Ascii.eqb c sep then EmptyString :: split sep s'
      else match split sep s' with
           | piece :: pieces => String c piece :: pieces
           | [] => [String c EmptyString]
           end
  end.

(** ** [parseInt(s)] without a radix argument

    A string is a sequence of code units below 256.  The result is an
    integer or [NaN] (here [None]).  The integer is kept exact; the program
    only compares it with small constants, which rounding to a double never
    changes. *)

(** White space that [parseInt] skips: TAB, LF, VT, FF, CR, SP, NBSP. *)
Definition is_white (c : ascii) : bool :=
  let n := nat_of_ascii c in
  ((9 <=? n) && (n <=? 13) || (n =? 32) || (n =? 160))%nat.

Fixpoint trim_start (s : string) : string :=
  match s with
  | String c s' => if is_white c then trim_start s' else s
  | EmptyString => EmptyString
  end.

(** The value of a digit: [0-9], then [a-z] and [A-Z] for 10 to 35. *)
Definition digit_value (c : ascii) : option Z :=
  let n := Z.of_nat (nat_of_ascii c) in
  if (48 <=? n) && (n <=? 57) then Some (n - 48)
  else if (97 <=? n) && (n <=? 122) then Some (n - 87)
  else if (65 <=? n) && (n <=? 90) then Some (n - 55)
  else None.

(** The longest prefix of [s] made of digits of radix [R], as a number;
    [acc] is [None] until a first digit has been read. *)
Fixpoint parse_digits (R : Z) (s : string) (acc : option Z) : option Z :=
  match s with
  | EmptyString => acc
  | String c s' =>
      match digit_value c with
      | Some d =>
          if d <? R
          then parse_digits R s'
                 (Some (match acc with Some a => a * R + d | None => d end))
          else acc
      | None => acc
      end
  end.

Definition parseInt (s : string) : option Z :=
  let s1 := trim_start s in
  let '(sign, s2) :=
    match s1 with
    | String "-" r => (-1, r)
    | String "+" r => (1, r)
    | _ => (1, s1)
    end in
  let '(R, s3) :=
    match s2 with
    | String "0" (String "x" r) => (16, r)
    | String "0" (String "X" r) => (16, r)
    | _ => (10, s2)
    end in
  match parse_digits R s3 None with
  | Some n => Some (sign * n)
  | None => None
  end.

(** [x === v] for [x] the result of [parseInt] and [v] an integer:
    [NaN] is equal to nothing. *)
Definition strict_eq (x : option Z) (v : Z) : bool :=
  match x with
  | Some n => n =? v
  | None => false
  end.

(** [a > b] and [a < b] for values that are integers or [undefined]:
    [undefined] converts to [NaN], and every comparison with [NaN] is
    false. *)
Definition js_gt (a b : option Z) : bool :=
  match a, b with
  | Some x, Some y => x >? y
  | _, _ => false
  end.

Definition js_lt (a b : option Z) : bool :=
  match a, b with
  | Some x, Some y => x <? y
  | _, _ => false
  end.

(** Lower-case hexadecimal, [n] digits, most significant first: what
    [buf.toString('hex')] gives for a buffer of [n / 2] bytes read as a
    big-endian number. *)
Definition hex_digit (d : Z) : ascii :=
  if d <? 10 then ascii_of_nat (Z.to_nat (48 + d))
  else ascii_of_nat (Z.to_nat (87 + d)).

Fixpoint to_hex (n : nat) (z : Z) (acc : string) : string :=
  match n with
  | O => acc
  | S n' => to_hex n' (z / 16) (String (hex_digit (z mod 16)) acc)
  end.

(* ================================================================== *)
(** * The world outside the program, and computations in it            *)
(* ================================================================== *)

(** What the process interacts with.  [stdin] holds the lines the user is
    going to type, in order.  [entropy] is the operating system's source of
    randomness: the [k]-th request made of it ([randomBytes], [randomInt] or
    [Math.random]) is answered from [entropy k]; [drawn] counts the requests
    so far.  [stdout] and [stderr] collect what has been written, oldest
    first. *)
Record World : Type := mkWorld {
  stdin : list string;
  entropy : nat -> Z;
  drawn : nat;
  stdout : list string;
  stderr : list string;
  rl_closed : bool
}.

(** A computation ends in one of four ways: it returns a value; it throws
    (for an [async] method: its promise rejects); it waits for a line of
    input that never comes; or its loop was cut off by the bound on
    iterations that [Part000.getFairRandom] takes. *)
Inductive Outcome (A : Type) : Type :=
| Ret (a : A) (w : World)
| Throw (message : string) (w : World)
| Pending (w : World)
| OutOfFuel (w : World).

Arguments Ret {A} a w.
Arguments Throw {A} message w.
Arguments Pending {A} w.
Arguments OutOfFuel {A} w.

Definition IO (A : Type) : Type := World -> Outcome A.

Definition ret {A : Type} (a : A) : IO A := fun w => Ret a w.

Definition bind {A B : Type} (m : IO A) (k : A -> IO B) : IO B :=
  fun w =>
    match m w with
    | Ret a w' => k a w'
    | Throw e w' => Throw e w'
    | Pending w' => Pending w'
    | OutOfFuel w' => OutOfFuel w'
    end.

Definition throw {A : Type} (message : string) : IO A :=
  fun w => Throw message w.

Declare Scope io_scope.
Delimit Scope io_scope with io.
Notation "x <- m ;; k" := (bind m (fun x => k))
  (at level 100, m at next level, right associativity) : io_scope.
Notation "m ;; k" := (bind m (fun _ => k))
  (at level 100, right associativity) : io_scope.
Local Open Scope io_scope.

(** The result of a constructor, which runs before any input or output. *)
Inductive Result (A : Type) : Type :=
| Ok (a : A)
| Error (message : string).

Arguments Ok {A} a.
Arguments Error {A} message.

(** ** What Node.js provides

    Two library functions are taken as they are, without a model of their
    insides: the HMAC of a message under a key with SHA3-256, as a
    hexadecimal string ([crypto.createHmac('sha3-256', key).update(m)
    .digest('hex')]), and the conversion [Number(s)] of a string to a
    number. *)
Class NodeRuntime : Type := {
  createHmac_sha3_256 : string -> string -> string;
  Number : string -> number
}.

Definition write_stdout (line : string) (w : World) : World :=
  mkWorld (stdin w) (entropy w) (drawn w) (stdout w ++ [line])%list
          (stderr w) (rl_closed w).

Definition write_stderr (line : string) (w : World) : World :=
  mkWorld (stdin w) (entropy w) (drawn w) (stdout w) (stderr w ++ [line])%list
          (rl_closed w).

Definition set_stdin (lines : list string) (w : World) : World :=
  mkWorld lines (entropy w) (drawn w) (stdout w) (stderr w) (rl_closed w).

(** [console.log(line)] *)
Definition console_log (line : string) : IO unit :=
  fun w => Ret tt (write_stdout line w).

(** [console.error("Error:", message)] *)
Definition console_error (label message : string) : IO unit :=
  fun w => Ret tt (write_stderr (label ++ " " ++ message)%string w).

(** [this.rl.close()] *)
Definition rl_close : IO unit :=
  fun w => Ret tt (mkWorld (stdin w) (entropy w) (drawn w) (stdout w)
                           (stderr w) true).

(** One request to the source of randomness. *)
Definition advance (w : World) : World :=
  mkWorld (stdin w) (entropy w) (S (drawn w)) (stdout w) (stderr w)
          (rl_closed w).

Definition draw : IO Z :=
  fun w => Ret (entropy w (drawn w)) (advance w).

(** [crypto.randomBytes(n).toString('hex')] *)
Definition crypto_randomBytes_hex (n : nat) : IO string :=
  raw <- draw ;;
  ret (to_hex (2 * n) (raw mod 256 ^ Z.of_nat n) "").

(** [crypto.randomInt(max)]: "Return a random integer n such that
    0 <= n < max"; "the range (max - min) must be less than 2^48", and
    otherwise, or when [max] is not above the lower bound 0, the call throws
    a [RangeError] with code [ERR_OUT_OF_RANGE] (Node.js documentation of
    [crypto.randomInt]). *)
Definition RAND_MAX : Z := 2 ^ 48 - 1.

Definition crypto_randomInt (max : Z) : IO Z :=
  if (max <=? 0) || (RAND_MAX <? max)
  then throw "ERR_OUT_OF_RANGE"
  else raw <- draw ;; ret (raw mod max).

(** [Math.floor(Math.random() * n)] for an array length [n]:
    [Math.random()] is in [[0, 1)], so the result is an integer in
    [[0, n)], and [0] when [n] is [0]. *)
Definition Math_floor_random_times (n : Z) : IO Z :=
  raw <- draw ;;
  ret (if n <=? 0 then 0 else raw mod n).

(* ================================================================== *)
(** * Code common to [src/app.js] and [src/unnamed/part_000]           *)
(* ================================================================== *)

(** An object of class [Dice].  Two objects are the same object ([===])
    when they were made by the same evaluation of [new Dice(...)]; [addr]
    stands for that identity.  [sides] holds integers: the constructor lets
    nothing else through. *)
Record Dice : Type := mkDice {
  addr : nat;
  sides : list Z
}.

(** [a === b] on two [Dice] objects. *)
Definition same_object (a b : Dice) : bool := Nat.eqb (addr a) (addr b).

(** What [getFairRandom] returns: [{ value, hmac }]. *)
Record FairValue : Type := mkFairValue {
  value : Z;
  hmac : string
}.

(** [x => !Number.isInteger(x) || x < 1]; the comparison is only reached
    for an integer. *)
Definition invalid_side (x : number) : bool :=
  negb (Number_isInteger x)
  || match x with
     | Int z => z <? 1
     | NonInt => false
     end.

(** The integers of an array of numbers, in order. *)
Definition integers (xs : list number) : list Z :=
  flat_map (fun x => match x with Int z => [z] | NonInt => [] end) xs.

(** [do { x = parseInt(await this.getUserInput(prompt)); }
     while (isNaN(x) || out_of_range(x));]
    One line of [lines] is read per iteration; the loop is left with the
    accepted integer. *)
Fixpoint do_while_parseInt (prompt : string) (out_of_range : Z -> bool)
    (lines : list string) (w : World) : Outcome Z :=
  match lines with
  | [] => Pending (set_stdin [] (write_stdout prompt w))
  | line :: rest =>
      let w' := set_stdin rest (write_stdout prompt w) in
      match parseInt line with
      | None => do_while_parseInt prompt out_of_range rest w'
      | Some x =>
          if out_of_range x
          then do_while_parseInt prompt out_of_range rest w'
          else Ret x w'
      end
  end.

(** The second and third tests of the loop in [playRound]:
    [userNumber < 0 || userNumber > 5]. *)
Definition off_the_die (userNumber : Z) : bool :=
  (userNumber <? 0) || (userNumber >? 5).

(** The second and third tests of the loop in [chooseDice]:
    [choice < 0 || choice >= this.diceOptions.length]. *)
Definition off_the_options (diceOptions : list Dice) (choice : Z) : bool :=
  (choice <? 0) || (choice >=? Z.of_nat (List.length diceOptions)).

(** The first line of [lines] that such a loop accepts, with the lines that
    follow it. *)
Fixpoint first_accepted (out_of_range : Z -> bool) (lines : list string)
    : option (Z * list string) :=
  match lines with
  | [] => None
  | line :: rest =>
      match parseInt line with
      | None => first_accepted out_of_range rest
      | Some x =>
          if out_of_range x then first_accepted out_of_range rest
          else Some (x, rest)
      end
  end.

Section Common.
Context `{NodeRuntime}.

(** [FairRandom.generateKey()] *)
Definition generateKey : IO string := crypto_randomBytes_hex 32.

(** [FairRandom.generateHMAC(key, value)] *)
Definition generateHMAC (key : string) (value : Z) : string :=
  createHmac_sha3_256 key (toString value).

(** Modelled from the spec: [verify(key, value, commitment)], the check
    that the counterpart runs after the reveal.  Neither source file defines
    it; the spec (4.1) has it recompute [commit(key, value)], which is
    [generateHMAC] above, and compare the result for exact equality with the
    commitment it was given, answering with a boolean and never with an
    exception. *)
Definition verify (key : string) (value : Z) (commitment : string)
    : Result bool :=
  Ok (String.eqb (generateHMAC key value) commitment).

(** [new Dice(sides)], for the object identity [addr]. *)
Definition Dice_constructor (addr : nat) (sides : list number) : Result Dice :=
  if negb (Nat.eqb (List.length sides) 6) || existsb invalid_side sides
  then Error "Each dice must have exactly 6 integer sides greater than 0."
  else Ok (mkDice addr (integers sides)).

(** [args.map(arg => new Dice(arg.split(',').map(Number)))]: the objects are
    made in index order, the first with identity [addr]; the first
    constructor that throws ends the whole expression. *)
Fixpoint new_Dice_each (addr : nat) (args : list string) : Result (list Dice) :=
  match args with
  | [] => Ok []
  | arg :: rest =>
      match Dice_constructor addr (map Number (split "," arg)) with
      | Error message => Error message
      | Ok dice =>
          match new_Dice_each (S addr) rest with
          | Error message => Error message
          | Ok others => Ok (dice :: others)
          end
      end
  end.

(** [getUserInput(prompt)]: [rl.question] writes the prompt and the promise
    resolves with the next line typed. *)
Definition getUserInput (prompt : string) : IO string :=
  fun w =>
    let w' := write_stdout prompt w in
    match stdin w with
    | [] => Pending w'
    | line :: rest => Ret line (set_stdin rest w')
    end.

(** [chooseDice(player)], with [this.diceOptions] as [diceOptions]. *)
Definition chooseDice (diceOptions : list Dice) (player : string) : IO Dice :=
  console_log "Choose your dice:" ;;
  fold_right
    (fun '(index, dice) rest =>
       console_log (toString (Z.of_nat index) ++ " - ["
                    ++ join "," (sides dice) ++ "]")%string ;; rest)
    (ret tt)
    (combine (seq 0 (List.length diceOptions)) diceOptions) ;;
  choice <- (fun w =>
               do_while_parseInt "Your selection: "
                 (off_the_options diceOptions) (stdin w) w) ;;
  match array_get diceOptions choice with
  | Some dice =>
      console_log (player ++ " chose dice: ["
                   ++ join "," (sides dice) ++ "]")%string ;;
      ret dice
  | None =>
      throw "TypeError: Cannot read properties of undefined (reading 'sides')"
  end.

End Common.

(** The line feed of [`\n--- Round ...`]. *)
Definition LF : string := String (ascii_of_nat 10) EmptyString.

(** [d.roll(...)] where [d] may be [undefined]: reading a property of
    [undefined] throws a [TypeError]. *)
Definition method_of {A B : Type} (receiver : option A) (name : string)
    (call : A -> IO B) : IO B :=
  match receiver with
  | Some object => call object
  | None =>
      throw ("TypeError: Cannot read properties of undefined (reading '"
             ++ name ++ "')")%string
  end.

(** [for (let i = 0; i < rounds; i++)] with [rounds] the result of
    [parseInt]: no iteration when it is [NaN] or not positive, and [rounds]
    iterations otherwise. *)
Definition iterations (rounds : option Z) : nat :=
  match rounds with
  | Some n => Z.to_nat n
  | None => O
  end.

(* ================================================================== *)
(** * [src/app.js]                                                     *)
(* ================================================================== *)

Module App.

(** [this.scores] *)
Record Scores : Type := mkScores {
  user : Z;
  computer : Z
}.

(** An object of class [DiceGame]; [this.rl] is the [stdin] and [stdout] of
    the world. *)
Record DiceGame : Type := mkDiceGame {
  diceOptions : list Dice;
  scores : Scores
}.

(** [Dice.prototype.roll(index)].  [index % 0] is [NaN], and [a[NaN]] is
    [undefined]. *)
Definition roll (this : Dice) (index : Z) : option Z :=
  let length := Z.of_nat (List.length (sides this)) in
  if length =? 0 then None
  else array_get (sides this) (js_rem index length).

(** [const finalIndex = (userNumber + value) % 6;] *)
Definition finalIndex (userNumber value : Z) : Z :=
  js_rem (userNumber + value) 6.

(** [this.scores.user++] and [this.scores.computer++] *)
Definition user_scores (this : DiceGame) : DiceGame :=
  mkDiceGame (diceOptions this)
             (mkScores (user (scores this) + 1) (computer (scores this))).

Definition computer_scores (this : DiceGame) : DiceGame :=
  mkDiceGame (diceOptions this)
             (mkScores (user (scores this)) (computer (scores this) + 1)).

(** The line that closes the game (line 110). *)
Definition final_message (s : Scores) : string :=
  if user s >? computer s then "Congratulations, you win!"
  else "I win the game!".

Section Program.
Context `{NodeRuntime}.

(** [FairRandom.getFairRandom(range, key)] *)
Definition getFairRandom (range : Z) (key : string) : IO FairValue :=
  randomValue <- crypto_randomInt range ;;
  ret (mkFairValue randomValue (generateHMAC key randomValue)).

(** [new DiceGame(args)] *)
Definition DiceGame_constructor (args : list string) : Result DiceGame :=
  if (List.length args <? 3)%nat
  then Error "At least 3 dice configurations must be provided."
  else match new_Dice_each 0 args with
       | Error message => Error message
       | Ok dice => Ok (mkDiceGame dice (mkScores 0 0))
       end.

(** [determineFirstMove()] *)
Definition determineFirstMove : IO string :=
  key <- generateKey ;;
  fair <- getFairRandom 2 key ;;
  console_log ("I selected a random value in the range 0..1 (HMAC="
               ++ hmac fair ++ ").")%string ;;
  answer <- getUserInput "Try to guess my selection (0 or 1): " ;;
  let userGuess := parseInt answer in
  console_log ("My selection: " ++ toString (value fair)
               ++ " (KEY=" ++ key ++ ").")%string ;;
  ret (if strict_eq userGuess (value fair) then "user" else "computer").

(** The first part of [playRound(playerDice, computerDice)], lines 67 to
    81: the exchange of numbers and the two throws.  The result is the pair
    [(userRoll, computerRoll)]. *)
Definition throws (playerDice computerDice : option Dice)
    : IO (option Z * option Z) :=
  key <- generateKey ;;
  fair <- getFairRandom 6 key ;;
  console_log ("I selected a random value in the range 0..5 (HMAC="
               ++ hmac fair ++ ").")%string ;;
  userNumber <- (fun w =>
                   do_while_parseInt "Add your number modulo 6 (0-5): "
                     off_the_die (stdin w) w) ;;
  console_log ("My number is " ++ toString (value fair)
               ++ " (KEY=" ++ key ++ ").")%string ;;
  let finalIndex := finalIndex userNumber (value fair) in
  console_log ("The result is " ++ toString userNumber ++ " + "
               ++ toString (value fair) ++ " = " ++ toString finalIndex
               ++ " (mod 6).")%string ;;
  userRoll <- method_of playerDice "roll"
                (fun dice => ret (roll dice finalIndex)) ;;
  computerRoll <- method_of computerDice "roll"
                    (fun dice => ret (roll dice finalIndex)) ;;
  console_log ("Your throw is " ++ show userRoll ++ ", my throw is "
               ++ show computerRoll ++ ".")%string ;;
  ret (userRoll, computerRoll).

(** The second part of [playRound], lines 82 to 90: the comparison of the
    two throws.  The result is [this] after the round. *)
Definition settle (this : DiceGame) (userRoll computerRoll : option Z)
    : IO DiceGame :=
  if js_gt userRoll computerRoll then
    console_log "You win this round!" ;;
    ret (user_scores this)
  else if js_lt userRoll computerRoll then
    console_log "I win this round!" ;;
    ret (computer_scores this)
  else
    console_log "It's a tie!" ;;
    ret this.

(** [playRound(playerDice, computerDice)] *)
Definition playRound (this : DiceGame) (playerDice computerDice : option Dice)
    : IO DiceGame :=
  rolls <- throws playerDice computerDice ;;
  settle this (fst rolls) (snd rolls).

(** The two dice of a round (lines 99 to 106): who moves first chooses, and
    the other side gets the first option that is not the chosen object. *)
Definition pick_dice (this : DiceGame) (firstPlayer : string)
    : IO (option Dice * option Dice) :=
  if String.eqb firstPlayer "user" then
    userDice <- chooseDice (diceOptions this) "You" ;;
    let computerDice :=
      array_find (fun d => negb (same_object d userDice)) (diceOptions this) in
    ret (Some userDice, computerDice)
  else
    computerDice <- chooseDice (diceOptions this) "Computer" ;;
    let userDice :=
      array_find (fun d => negb (same_object d computerDice))
                 (diceOptions this) in
    ret (userDice, Some computerDice).

(** The body of the [for] loop of [playGame], for the counter [i]. *)
Definition round (this : DiceGame) (i : Z) : IO DiceGame :=
  console_log (LF ++ "--- Round " ++ toString (i + 1) ++ " ---")%string ;;
  firstPlayer <- determineFirstMove ;;
  dice <- pick_dice this firstPlayer ;;
  playRound this (fst dice) (snd dice).

(** [n] more iterations of the loop, from the counter [i]. *)
Fixpoint rounds_from (n : nat) (i : Z) (this : DiceGame) : IO DiceGame :=
  match n with
  | O => ret this
  | S n' => this' <- round this i ;; rounds_from n' (i + 1) this'
  end.

(** [playGame()]; the result is [this] at the end. *)
Definition playGame (this : DiceGame) : IO DiceGame :=
  console_log "Starting Non-Transitive Dice Game..." ;;
  answer <- getUserInput "Enter the number of rounds: " ;;
  let rounds := parseInt answer in
  this' <- rounds_from (iterations rounds) 0 this ;;
  console_log ("Final Scores - You: " ++ toString (user (scores this'))
               ++ ", Computer: " ++ toString (computer (scores this')))%string ;;
  console_log (final_message (scores this')) ;;
  rl_close ;;
  ret this'.

(** The program: [try { new DiceGame(process.argv.slice(2)).playGame() }
    catch (error) { console.error("Error:", error.message) }].  The promise
    of [playGame] is not awaited: what it throws is not caught here. *)
Definition main (argv : list string) : IO unit :=
  match DiceGame_constructor argv with
  | Error message => console_error "Error:" message
  | Ok game => playGame game ;; ret tt
  end.

End Program.
End App.

(* ================================================================== *)
(** * [src/unnamed/part_000]                                           *)
(* ================================================================== *)

Module Part000.

(** An object of class [DiceGame]: this file keeps no scores. *)
Record DiceGame : Type := mkDiceGame {
  diceOptions : list Dice
}.

(** [Dice.prototype.roll()] *)
Definition roll (this : Dice) : IO (option Z) :=
  index <- Math_floor_random_times (Z.of_nat (List.length (sides this))) ;;
  ret (array_get (sides this) index).

(** [do { randomValue = crypto.randomInt(range); }
     while (randomValue >= range);], cut off after [fuel] iterations. *)
Fixpoint draw_below (fuel : nat) (range : Z) : IO Z :=
  match fuel with
  | O => fun w => OutOfFuel w
  | S fuel' =>
      randomValue <- crypto_randomInt range ;;
      if randomValue >=? range then draw_below fuel' range
      else ret randomValue
  end.

Section Program.
Context `{NodeRuntime}.
Variable fuel : nat.

(** [FairRandom.getFairRandom(range, key)] *)
Definition getFairRandom (range : Z) (key : string) : IO FairValue :=
  randomValue <- draw_below fuel range ;;
  ret (mkFairValue randomValue (generateHMAC key randomValue)).

(** [new DiceGame(args)] *)
Definition DiceGame_constructor (args : list string) : Result DiceGame :=
  if (List.length args <? 3)%nat
  then Error "At least 3 dice configurations must be provided."
  else match new_Dice_each 0 args with
       | Error message => Error message
       | Ok dice => Ok (mkDiceGame dice)
       end.

(** [determineFirstMove()] *)
Definition determineFirstMove : IO string :=
  key <- generateKey ;;
  fair <- getFairRandom 2 key ;;
  console_log ("I selected a random value in the range 0..1 (HMAC="
               ++ hmac fair ++ ").")%string ;;
  answer <- getUserInput "Try to guess my selection (0 or 1): " ;;
  let userGuess := parseInt answer in
  console_log ("My selection: " ++ toString (value fair)
               ++ " (KEY=" ++ key ++ ").")%string ;;
  ret (if strict_eq userGuess (value fair) then "user" else "computer").

(** The first part of [playRound(playerDice, computerDice)], lines 69 to
    82: the exchange of numbers and the two throws.  The result is the pair
    [(userRoll, computerRoll)]. *)
Definition throws (playerDice computerDice : option Dice)
    : IO (option Z * option Z) :=
  key <- generateKey ;;
  fair <- getFairRandom 6 key ;;
  console_log ("I selected a random value in the range 0..5 (HMAC="
               ++ hmac fair ++ ").")%string ;;
  userNumber <- (fun w =>
                   do_while_parseInt "Add your number modulo 6 (0-5): "
                     off_the_die (stdin w) w) ;;
  console_log ("My number is " ++ toString (value fair)
               ++ " (KEY=" ++ key ++ ").")%string ;;
  console_log ("The result is " ++ toString userNumber ++ " + "
               ++ toString (value fair) ++ " = "
               ++ toString (js_rem (userNumber + value fair) 6)
               ++ " (mod 6).")%string ;;
  userRoll <- method_of playerDice "roll" roll ;;
  computerRoll <- method_of computerDice "roll" roll ;;
  console_log ("Your throw is " ++ show userRoll ++ ", my throw is "
               ++ show computerRoll ++ ".")%string ;;
  ret (userRoll, computerRoll).

(** The second part of [playRound], lines 83 to 89. *)
Definition settle (userRoll computerRoll : option Z) : IO unit :=
  if js_gt userRoll computerRoll then console_log "You win!"
  else if js_lt userRoll computerRoll then console_log "I win!"
  else console_log "It's a tie!".

(** [playRound(playerDice, computerDice)] *)
Definition playRound (playerDice computerDice : option Dice) : IO unit :=
  rolls <- throws playerDice computerDice ;;
  settle (fst rolls) (snd rolls).

(** The two dice of the round (lines 95 to 102). *)
Definition pick_dice (this : DiceGame) (firstPlayer : string)
    : IO (option Dice * option Dice) :=
  if String.eqb firstPlayer "user" then
    userDice <- chooseDice (diceOptions this) "You" ;;
    let computerDice :=
      array_find (fun d => negb (same_object d userDice)) (diceOptions this) in
    ret (Some userDice, computerDice)
  else
    computerDice <- chooseDice (diceOptions this) "Computer" ;;
    let userDice :=
      array_find (fun d => negb (same_object d computerDice))
                 (diceOptions this) in
    ret (userDice, Some computerDice).

(** [start()] *)
Definition start (this : DiceGame) : IO unit :=
  console_log "Starting Non-Transitive Dice Game..." ;;
  firstPlayer <- determineFirstMove ;;
  dice <- pick_dice this firstPlayer ;;
  playRound (fst dice) (snd dice) ;;
  rl_close.

Definition main (argv : list string) : IO unit :=
  match DiceGame_constructor argv with
  | Error message => console_error "Error:" message
  | Ok game => start game
  end.

End Program.
End Part000.

(* ================================================================== *)
(** * A concrete runtime and world, for running the program            *)
(* ================================================================== *)

(** [Number] on the strings used in the examples below: the empty string is
    0 and a string of decimal digits is the integer it spells.  On other
    strings this stand-in answers [NonInt], without following [Number]. *)
Fixpoint all_digits (s : string) : bool :=
  match s with
  | EmptyString => true
  | String c r =>
      match digit_value c with
      | Some d => (d <? 10) && all_digits r
      | None => false
      end
  end.

Definition Number_of_digits (s : string) : number :=
  if all_digits s then
    match parse_digits 10 s None with
    | Some n => Int n
    | None => Int 0
    end
  else NonInt.

(** A stand-in for the HMAC, of the right type only. *)
Definition toy_hmac (key message : string) : string :=
  (key ++ ":" ++ message)%string.

Definition toy_runtime : NodeRuntime :=
  {| createHmac_sha3_256 := toy_hmac; Number := Number_of_digits |}.

(** A world in which the user types [lines] and the source of randomness
    answers with the numbers of [raws], then with 0. *)
Definition world_of (lines : list string) (raws : list Z) : World :=
  mkWorld lines (fun k => nth k raws 0) O [] [] false.

(* ================================================================== *)
(** * The specification's side                                         *)
(* ================================================================== *)

(** The spec's combined index (4.4): [(c + value_h) mod R]. *)
Definition combined_index_spec (R c value_h : Z) : Z := (c + value_h) mod R.

(** The spec's [resolve(index)] (4.3): [faces[index mod 6]]. *)
Definition resolve_spec (faces : list Z) (index : Z) : option Z :=
  nth_error faces (Z.to_nat (index mod 6)).

(** The spec's resolved faces of a dice round (4.4): both dice at the
    combined index. *)
Definition resolved_faces_spec (counterpartDie houseDie : list Z)
    (c value_h : Z) : option Z * option Z :=
  (resolve_spec counterpartDie (combined_index_spec 6 c value_h),
   resolve_spec houseDie (combined_index_spec 6 c value_h)).

(** The spec's well-formed die configuration (4.3, 7): exactly 6 entries,
    all integers at least 1. *)
Definition six_positive_integers (configuration : list number) : Prop :=
  List.length configuration = 6%nat
  /\ forall x, In x configuration -> exists z, x = Int z /\ 1 <= z.

(** The key of a round or first move that starts in the world [w]. *)
Definition key_at (w : World) : string :=
  to_hex (2 * 32) (entropy w (drawn w) mod 256 ^ Z.of_nat 32) "".

(** The house's number in a round or a first move that starts in the world
    [w]: the key takes the first request to the source of randomness, the
    number the second. *)
Definition house_value (range : Z) (w : World) : Z :=
  entropy w (S (drawn w)) mod range.

(** A die with the faces 1 to 6, and one with the faces 6 to 1. *)
Definition die_1_to_6 : Dice := mkDice 0 [1; 2; 3; 4; 5; 6].
Definition die_6_to_1 : Dice := mkDice 1 [6; 5; 4; 3; 2; 1].

(** ** Notions used to state what the rest of the code does *)

(** An outcome that is a return or a wait for input: nothing was thrown,
    and no loop was cut off. *)
Definition settled {A : Type} (o : Outcome A) : Prop :=
  match o with
  | Ret _ _ | Pending _ => True
  | Throw _ _ | OutOfFuel _ => False
  end.

(** Options among which a round can be played: at least two, each a
    different object. *)
Definition playable (options : list Dice) : Prop :=
  NoDup (map addr options) /\ (2 <= List.length options)%nat.

(** The points of [t] against those of [s]: none lost, at most [n] more
    in all. *)
Definition gained_at_most (n : Z) (s t : App.Scores) : Prop :=
  App.user s <= App.user t /\ App.computer s <= App.computer t
  /\ (App.user t - App.user s) + (App.computer t - App.computer s) <= n.

(** The value of a decimal numeral read after the value [acc]. *)
Fixpoint decimal_after (d : Decimal.uint) (acc : Z) : Z :=
  match d with
  | Decimal.Nil => acc
  | Decimal.D0 l => decimal_after l (10 * acc)
  | Decimal.D1 l => decimal_after l (10 * acc + 1)
  | Decimal.D2 l => decimal_after l (10 * acc + 2)
  | Decimal.D3 l => decimal_after l (10 * acc + 3)
  | Decimal.D4 l => decimal_after l (10 * acc + 4)
  | Decimal.D5 l => decimal_after l (10 * acc + 5)
  | Decimal.D6 l => decimal_after l (10 * acc + 6)
  | Decimal.D7 l => decimal_after l (10 * acc + 7)
  | Decimal.D8 l => decimal_after l (10 * acc + 8)
  | Decimal.D9 l => decimal_after l (10 * acc + 9)
  end.

(** A character that is one of [0] to [9]. *)
Definition is_decimal_digit (c : ascii) : bool :=
  match digit_value c with
  | Some d => d <? 10
  | None => false
  end.

(** A text that does not start with a decimal digit. *)
Definition no_digit_next (tail : string) : bool :=
  match tail with
  | EmptyString => true
  | String c _ => negb (is_decimal_digit c)
  end.

(** A text that does not start with [x] or [X]. *)
Definition no_x_next (tail : string) : bool :=
  match tail with
  | EmptyString => true
  | String c _ => negb (Ascii.eqb c "x") && negb (Ascii.eqb c "X")
  end.

(** What may follow the decimal numeral of [z] in a line without changing
    what [parseInt] reads: a text that does not start with a decimal digit
    and, when the numeral is [0], not with [x] or [X] either, since [0x]
    and [0X] start a hexadecimal numeral. *)
Definition follows_numeral (z : Z) (tail : string) : bool :=
  no_digit_next tail && (negb (z =? 0) || no_x_next tail).

(** [Number.isSafeInteger(z)]: the integers that JavaScript prints as
    their decimal numeral, digit for digit. *)
Definition safe_integer (z : Z) : Prop := Z.abs z < 2 ^ 53.

(** A die whose faces are safe integers. *)
Definition safe_faces (d : Dice) : Prop := Forall safe_integer (sides d).

(** The characters of a key: [0] to [9] and [a] to [f]. *)
Definition is_hex_char (c : ascii) : bool :=
  let n := nat_of_ascii c in
  ((48 <=? n) && (n <=? 57) || (97 <=? n) && (n <=? 102))%nat.

Fixpoint string_forall (p : ascii -> bool) (s : string) : bool :=
  match s with
  | EmptyString => true
  | String c r => p c && string_forall p r
  end.

(** The lines of a round of [app.js] that carry the commitment and the
    reveal (lines 69 and 75), and those of the first move (lines 47 and
    50). *)
Definition commitment_line (range_end : string) (hmac : string) : string :=
  ("I selected a random value in the range 0.." ++ range_end ++ " (HMAC="
   ++ hmac ++ ").")%string.

Definition reveal_line (value : Z) (key : string) : string :=
  ("My number is " ++ toString value ++ " (KEY=" ++ key ++ ").")%string.

Definition selection_line (value : Z) (key : string) : string :=
  ("My selection: " ++ toString value ++ " (KEY=" ++ key ++ ").")%string.

(* ================================================================== *)
(** * Running computations                                             *)
(* ================================================================== *)

Lemma bind_Ret {A B : Type} (m : IO A) (k : A -> IO B) (w w' : World) (a : A) :
  m w = Ret a w' -> bind m k w = k a w'.
Proof. intros E. unfold bind. now rewrite E. Qed.

Lemma bind_Throw {A B : Type} (m : IO A) (k : A -> IO B) (w w' : World) e :
  m w = Throw e w' -> bind m k w = Throw e w'.
Proof. intros E. unfold bind. now rewrite E. Qed.

Lemma bind_Ret_inv {A B : Type} (m : IO A) (k : A -> IO B) (w w' : World) (b : B) :
  bind m k w = Ret b w' ->
  exists a w1, m w = Ret a w1 /\ k a w1 = Ret b w'.
Proof.
  unfold bind. destruct (m w) as [a w1 | e w1 | w1 | w1]; try discriminate.
  intros E. now exists a, w1.
Qed.

Lemma RAND_MAX_value : RAND_MAX = 281474976710655.
Proof. reflexivity. Qed.

(** The contract of [crypto.randomInt]: within the bounds it accepts, one
    request is made and the answer is in [[0, max)]. *)
Lemma crypto_randomInt_run (max : Z) (w : World) :
  1 <= max <= RAND_MAX ->
  crypto_randomInt max w = Ret (entropy w (drawn w) mod max) (advance w).
Proof.
  intros [Hlo Hhi]. unfold crypto_randomInt.
  destruct (max <=? 0) eqn:E1; [apply Z.leb_le in E1; lia |].
  destruct (RAND_MAX <? max) eqn:E2; [apply Z.ltb_lt in E2; lia |].
  reflexivity.
Qed.

Lemma crypto_randomInt_range (max : Z) (w w' : World) (n : Z) :
  crypto_randomInt max w = Ret n w' -> 0 <= n < max.
Proof.
  unfold crypto_randomInt.
  destruct (max <=? 0) eqn:E1; [discriminate |].
  destruct (RAND_MAX <? max); [discriminate |].
  cbn. intros E. injection E as <- _.
  apply Z.leb_gt in E1. apply Z.mod_pos_bound. lia.
Qed.

Lemma crypto_randomInt_refuses (max : Z) (w : World) :
  max <= 0 \/ RAND_MAX < max ->
  crypto_randomInt max w = Throw "ERR_OUT_OF_RANGE" w.
Proof.
  intros Hout. unfold crypto_randomInt.
  destruct (max <=? 0) eqn:E1; [reflexivity |].
  destruct (RAND_MAX <? max) eqn:E2; [reflexivity |].
  apply Z.leb_gt in E1. apply Z.ltb_ge in E2. lia.
Qed.

(* ================================================================== *)
(** * The combined index (C2)                                          *)
(* ================================================================== *)

Lemma js_rem_nonneg (a b : Z) : 0 <= a -> 0 < b -> js_rem a b = a mod b.
Proof. intros Ha Hb. unfold js_rem. apply Z.rem_mod_nonneg; lia. Qed.

(** C2.  For a range [R], a house value [v] in [[0, R)] and a contribution
    [c] in [[0, R)], the index that the code computes with [%] is
    [(c + v) mod R], and it is the same whichever number comes first; for
    [R = 6] this is the [finalIndex] of [playRound]. *)
Theorem combined_index_commutes (R v c : Z) :
  0 <= v < R -> 0 <= c < R ->
  js_rem (c + v) R = (c + v) mod R
  /\ js_rem (c + v) R = combined_index_spec R c v
  /\ js_rem (c + v) R = js_rem (v + c) R
  /\ combined_index_spec R c v = combined_index_spec R v c
  /\ 0 <= js_rem (c + v) R < R
  /\ (R = 6 -> App.finalIndex c v = (c + v) mod 6
               /\ App.finalIndex c v = App.finalIndex v c).
Proof.
  intros Hv Hc. unfold combined_index_spec, App.finalIndex.
  rewrite (Z.add_comm v c).
  assert (E : js_rem (c + v) R = (c + v) mod R)
    by (apply js_rem_nonneg; lia).
  rewrite E.
  repeat split; try reflexivity; try (apply Z.mod_pos_bound; lia).
  subst R. exact E.
Qed.

Lemma combined_index_commutes_witness :
  js_rem (2 + 3) 6 = (2 + 3) mod 6
  /\ js_rem (2 + 3) 6 = combined_index_spec 6 2 3
  /\ js_rem (2 + 3) 6 = js_rem (3 + 2) 6
  /\ combined_index_spec 6 2 3 = combined_index_spec 6 3 2
  /\ 0 <= js_rem (2 + 3) 6 < 6
  /\ (6 = 6 -> App.finalIndex 2 3 = (2 + 3) mod 6
               /\ App.finalIndex 2 3 = App.finalIndex 3 2).
Proof. apply (combined_index_commutes 6 3 2); lia. Defined.

(** The scenario of the spec: value 3, contribution 2, faces 1 to 6. *)
Example scenario_index_5 :
  App.finalIndex 2 3 = 5 /\ App.roll die_1_to_6 5 = Some 6.
Proof. split; reflexivity. Qed.

(* ================================================================== *)
(** * Dice (C3, C8)                                                    *)
(* ================================================================== *)

Lemma invalid_side_false (x : number) :
  invalid_side x = false <-> exists z, x = Int z /\ 1 <= z.
Proof.
  unfold invalid_side. destruct x as [z |]; cbn.
  - rewrite Z.ltb_ge. split.
    + intros Hz. now exists z.
    + intros [z' [E Hz]]. now injection E as ->.
  - split; [discriminate | intros [z [E _]]; discriminate].
Qed.

Lemma existsb_invalid_side_false (xs : list number) :
  existsb invalid_side xs = false <->
  forall x, In x xs -> exists z, x = Int z /\ 1 <= z.
Proof.
  induction xs as [| x xs IH]; cbn.
  - split; [intros _ x [] | reflexivity].
  - rewrite orb_false_iff, IH, invalid_side_false. split.
    + intros [Hx Hxs] y [<- | Hy]; auto.
    + intros Hall. split; [apply Hall; now left | intros y Hy; apply Hall; now right].
Qed.

Lemma integers_valid (xs : list number) :
  (forall x, In x xs -> exists z, x = Int z /\ 1 <= z) ->
  map Int (integers xs) = xs
  /\ List.length (integers xs) = List.length xs
  /\ Forall (fun z => 1 <= z) (integers xs).
Proof.
  induction xs as [| x xs IH]; intros Hall.
  - repeat split. constructor.
  - destruct (Hall x (or_introl eq_refl)) as [z [-> Hz]].
    destruct IH as [E [L F]]; [intros y Hy; apply Hall; now right |].
    cbn. fold (integers xs). rewrite E, L. repeat split. now constructor.
Qed.

(** The constructor succeeds exactly on 6 integers that are at least 1. *)
Lemma Dice_constructor_Ok_iff (a : nat) (xs : list number) :
  (exists d, Dice_constructor a xs = Ok d) <-> six_positive_integers xs.
Proof.
  unfold Dice_constructor, six_positive_integers.
  rewrite <- existsb_invalid_side_false.
  destruct (Nat.eqb_spec (List.length xs) 6) as [L | L]; cbn.
  - destruct (existsb invalid_side xs); split.
    + intros [d E]; discriminate.
    + intros [_ E]; discriminate.
    + now intros _.
    + intros _. eexists. reflexivity.
  - split; [intros [d E]; discriminate | intros [L' _]; contradiction].
Qed.

Lemma Dice_constructor_Error_message (a : nat) (xs : list number) e :
  Dice_constructor a xs = Error e ->
  e = "Each dice must have exactly 6 integer sides greater than 0.".
Proof.
  unfold Dice_constructor.
  destruct (negb _ || _); [now intros [= <-] | discriminate].
Qed.

(** What a constructed die holds: its identity, and the 6 numbers it was
    given, all integers at least 1. *)
Lemma Dice_constructor_Ok (a : nat) (xs : list number) (d : Dice) :
  Dice_constructor a xs = Ok d ->
  addr d = a
  /\ map Int (sides d) = xs
  /\ List.length (sides d) = 6%nat
  /\ Forall (fun z => 1 <= z) (sides d).
Proof.
  intros E.
  assert (V : six_positive_integers xs)
    by (apply (Dice_constructor_Ok_iff a); now exists d).
  destruct V as [L Hall].
  destruct (integers_valid xs Hall) as [EM [EL F]].
  unfold Dice_constructor in E.
  destruct (negb _ || _); [discriminate |].
  injection E as <-. cbn. rewrite EL. auto.
Qed.

(** [roll] of a die with 6 sides, at an index that is not negative. *)
Lemma roll_six_sides (d : Dice) (i : Z) :
  List.length (sides d) = 6%nat -> 0 <= i ->
  App.roll d i = nth_error (sides d) (Z.to_nat (i mod 6)).
Proof.
  intros L Hi. unfold App.roll. rewrite L. cbn [Z.of_nat Pos.of_succ_nat Pos.succ Z.eqb].
  change (Z.of_nat 6) with 6. cbn [Z.eqb].
  rewrite js_rem_nonneg by lia.
  unfold array_get.
  destruct (i mod 6 <? 0) eqn:E; [| reflexivity].
  apply Z.ltb_lt in E. pose proof (Z.mod_pos_bound i 6). lia.
Qed.

Lemma nth_error_six (faces : list Z) (n : Z) :
  List.length faces = 6%nat -> 0 <= n < 6 ->
  exists face, nth_error faces (Z.to_nat n) = Some face /\ In face faces.
Proof.
  intros L Hn.
  destruct (nth_error faces (Z.to_nat n)) as [face |] eqn:E.
  - exists face. split; [reflexivity | eapply nth_error_In; eassumption].
  - apply nth_error_None in E. lia.
Qed.

(** C3, as the code has it.  For a die that the constructor accepted and an
    index [i] that is not negative, [roll(i)] is the face
    [sides[i mod 6]], an integer at least 1; and [roll(i + 6 * k)] is the
    same face for every [k] that leaves [i + 6 * k] not negative. *)
Theorem roll_total_periodic (a : nat) (xs : list number)
    (d : Dice) (i k : Z) :
  Dice_constructor a xs = Ok d ->
  0 <= i -> 0 <= i + 6 * k ->
  (exists face, App.roll d i = Some face
                /\ resolve_spec (sides d) i = Some face
                /\ In face (sides d) /\ 1 <= face)
  /\ App.roll d (i + 6 * k) = App.roll d i.
Proof.
  intros E Hi Hik.
  destruct (Dice_constructor_Ok a xs d E) as [_ [_ [L F]]].
  rewrite !roll_six_sides by assumption.
  split.
  - destruct (nth_error_six (sides d) (i mod 6) L) as [face [Ef Hin]].
    { apply Z.mod_pos_bound. lia. }
    exists face. unfold resolve_spec. repeat split; try assumption.
    rewrite Forall_forall in F. now apply F.
  - replace (i + 6 * k) with (i + k * 6) by lia.
    now rewrite Z.mod_add by lia.
Qed.

Lemma roll_total_periodic_witness :
  (exists face, App.roll die_1_to_6 8 = Some face
                /\ resolve_spec (sides die_1_to_6) 8 = Some face
                /\ In face (sides die_1_to_6) /\ 1 <= face)
  /\ App.roll die_1_to_6 (8 + 6 * (-1)) = App.roll die_1_to_6 8.
Proof.
  apply (roll_total_periodic 0
           [Int 1; Int 2; Int 3; Int 4; Int 5; Int 6] die_1_to_6 8 (-1));
    [reflexivity | lia | lia].
Defined.

(** C3 as the spec states it fails at a negative index: [-1 % 6] is [-1],
    and [sides[-1]] is [undefined], while [-1 + 6 * 1] gives the face 6. *)
Lemma roll_negative_index_undefined :
  Dice_constructor 0 [Int 1; Int 2; Int 3; Int 4; Int 5; Int 6]
    = Ok die_1_to_6
  /\ App.roll die_1_to_6 (-1) = None
  /\ resolve_spec (sides die_1_to_6) (-1) = Some 6
  /\ App.roll die_1_to_6 (-1 + 6 * 1) = Some 6.
Proof. repeat split. Qed.

Section Construction.
Context `{NodeRuntime}.

(** [new Dice(...)] either returns or throws. *)
Lemma Dice_constructor_Error_iff (a : nat) (xs : list number) :
  (exists e, Dice_constructor a xs = Error e) <-> ~ six_positive_integers xs.
Proof.
  rewrite <- (Dice_constructor_Ok_iff a).
  destruct (Dice_constructor a xs) as [d | e]; split.
  - intros [e E]; discriminate.
  - intros N. exfalso. apply N. now exists d.
  - intros _ [d E]; discriminate.
  - intros _. now exists e.
Qed.

(** The [map] over the arguments throws exactly when one of them is not a
    well-formed configuration. *)
Lemma new_Dice_each_Error_iff (args : list string) (a : nat) :
  (exists e, new_Dice_each a args = Error e) <->
  exists arg, In arg args
              /\ ~ six_positive_integers (map Number (split "," arg)).
Proof.
  revert a. induction args as [| arg rest IH]; intros a; cbn.
  - split; [intros [e E]; discriminate | intros [arg [[] _]]].
  - pose proof (Dice_constructor_Error_iff a (map Number (split "," arg))) as D.
    specialize (IH (S a)).
    destruct (Dice_constructor a (map Number (split "," arg))) as [d | e].
    + destruct (new_Dice_each (S a) rest) as [ds | e'].
      * split; [intros [e E]; discriminate |].
        intros [x [[<- | Hx] N]].
        -- apply D in N. destruct N as [e E]. discriminate.
        -- assert (X : exists e, @Ok (list Dice) ds = Error e)
             by (apply IH; now exists x).
           destruct X as [e E]. discriminate.
      * split; [| intros _; now exists e'].
        intros _.
        destruct (proj1 IH (ex_intro _ e' eq_refl)) as [x [Hx N]].
        exists x. auto.
    + split; [| intros _; now exists e].
      intros _. exists arg. split; [now left |].
      apply D. now exists e.
Qed.

(** The configuration ["1,2,3"] of the spec's scenario has 3 entries,
    whatever [Number] makes of them. *)
Lemma three_faces_malformed :
  ~ six_positive_integers (map Number (split "," "1,2,3")).
Proof. intros [L _]. cbn in L. discriminate. Qed.

(** C8.  [new DiceGame(args)] throws if and only if there are fewer than 3
    arguments or one of them is not 6 integers at least 1; [main] then
    only writes the error message, and reads no input, draws no random
    number and prints nothing of a round; and any list of arguments with
    ["1,2,3"] in it is refused. *)
Theorem construction_fails_iff (args : list string) :
  ((exists e, App.DiceGame_constructor args = Error e) <->
   ((List.length args < 3)%nat
    \/ exists arg, In arg args
                   /\ ~ six_positive_integers (map Number (split "," arg))))
  /\ (forall e w, App.DiceGame_constructor args = Error e ->
                  App.main args w
                  = Ret tt (write_stderr ("Error: " ++ e)%string w))
  /\ (In "1,2,3" args -> exists e, App.DiceGame_constructor args = Error e).
Proof.
  assert (Iff : (exists e, App.DiceGame_constructor args = Error e) <->
                ((List.length args < 3)%nat
                 \/ exists arg, In arg args
                      /\ ~ six_positive_integers (map Number (split "," arg)))).
  { unfold App.DiceGame_constructor.
    pose proof (new_Dice_each_Error_iff args 0) as E.
    destruct (Nat.ltb_spec (List.length args) 3) as [L | L].
    - split; [intros _; now left | intros _; eexists; reflexivity].
    - destruct (new_Dice_each 0 args) as [ds | e].
      + split; [intros [e X]; discriminate |].
        intros [L' | X]; [lia |].
        apply E in X. destruct X as [e X]. discriminate.
      + split; [| intros _; now exists e].
        intros _. right. apply E. now exists e. }
  split; [exact Iff |]. split.
  - intros e w E. unfold App.main. now rewrite E.
  - intros Hin. apply Iff. right. exists "1,2,3". split; [assumption |].
    apply three_faces_malformed.
Qed.

(** The scenario of the spec: with ["1,2,3"] among three arguments the
    constructor throws, and the program ends on the error message. *)
Lemma construction_fails_iff_run (first third : string) (w : World) :
  exists e,
    App.DiceGame_constructor [first; "1,2,3"; third] = Error e
    /\ App.main [first; "1,2,3"; third] w
       = Ret tt (write_stderr ("Error: " ++ e)%string w).
Proof.
  destruct (new_Dice_each_Error_iff [first; "1,2,3"; third] 0) as [_ E].
  destruct E as [e E].
  { exists "1,2,3". split; [right; now left | apply three_faces_malformed]. }
  exists e. unfold App.main, App.DiceGame_constructor.
  cbn [List.length Nat.ltb Nat.leb]. now rewrite E.
Qed.

(** The other file has the same constructor, without the scores. *)
Lemma Part000_construction_fails_iff (args : list string) :
  (exists e, Part000.DiceGame_constructor args = Error e) <->
  (exists e, App.DiceGame_constructor args = Error e).
Proof.
  unfold Part000.DiceGame_constructor, App.DiceGame_constructor.
  destruct (List.length args <? 3)%nat;
    [split; intros _; eexists; reflexivity |].
  destruct (new_Dice_each 0 args); split; intros [e E];
    try discriminate; eexists; reflexivity.
Qed.

End Construction.

(* ================================================================== *)
(** * Commitments (C6)                                                 *)
(* ================================================================== *)

Section Commitment.
Context `{NodeRuntime}.

(** C6.  [verify] answers [true] on the commitment that [generateHMAC]
    makes for the same key and value, [true] on nothing else, and [false]
    on every other string, of any length and content; it always answers. *)
Theorem verify_accepts_exactly_the_commitment
    (key : string) (value : Z) (commitment : string) :
  verify key value (generateHMAC key value) = Ok true
  /\ (verify key value commitment = Ok true
      <-> commitment = generateHMAC key value)
  /\ (verify key value commitment = Ok false
      <-> commitment <> generateHMAC key value)
  /\ (exists answer, verify key value commitment = Ok answer).
Proof.
  unfold verify. rewrite String.eqb_refl.
  destruct (String.eqb_spec (generateHMAC key value) commitment) as [E | N].
  - split; [reflexivity |]. split; [split; congruence |].
    split; [split; [discriminate | congruence] | now eexists].
  - split; [reflexivity |]. split; [split; [discriminate | congruence] |].
    split; [split; congruence | now eexists].
Qed.

End Commitment.

(** A string that is no digest at all is refused like any other. *)
Example verify_malformed_commitment :
  @verify toy_runtime "00ff" 3 (@generateHMAC toy_runtime "00ff" 3) = Ok true
  /\ @verify toy_runtime "00ff" 3 "" = Ok false
  /\ @verify toy_runtime "00ff" 3 "not a digest" = Ok false
  /\ @verify toy_runtime "00ff" 4 (@generateHMAC toy_runtime "00ff" 3)
     = Ok false.
Proof. repeat split. Qed.

(* ================================================================== *)
(** * The fair random value (C7)                                       *)
(* ================================================================== *)

Section FairValues.
Context `{NodeRuntime}.

Lemma getFairRandom_run (range : Z) (key : string) (w : World) :
  1 <= range <= RAND_MAX ->
  App.getFairRandom range key w
  = Ret (mkFairValue (entropy w (drawn w) mod range)
           (generateHMAC key (entropy w (drawn w) mod range)))
        (advance w).
Proof.
  intros Hr. unfold App.getFairRandom.
  now rewrite (bind_Ret _ _ _ _ _ (crypto_randomInt_run range w Hr)).
Qed.

(** The loop of [part_000] leaves after its first iteration. *)
Lemma draw_below_run (fuel : nat) (range : Z) (w : World) :
  Part000.draw_below (S fuel) range w = crypto_randomInt range w.
Proof.
  cbn [Part000.draw_below]. unfold bind.
  destruct (crypto_randomInt range w) as [n w' | e w' | w' | w'] eqn:E;
    try reflexivity.
  apply crypto_randomInt_range in E.
  destruct (n >=? range) eqn:G; [apply Z.geb_le in G; lia | reflexivity].
Qed.

(** The two texts of [getFairRandom] compute the same, for every range,
    once the loop may run at least once. *)
Lemma getFairRandom_retry_same (fuel : nat) (range : Z) (key : string)
    (w : World) :
  Part000.getFairRandom (S fuel) range key w = App.getFairRandom range key w.
Proof.
  unfold Part000.getFairRandom, App.getFairRandom, bind.
  now rewrite draw_below_run.
Qed.

(** C7, as the code has it.  For a range [R] from 1 to [2^48 - 1],
    [getFairRandom] of [app.js] makes one request to the source of
    randomness and returns a value in [[0, R)] with its HMAC; the loop of
    [part_000] ends after its first draw with the same result in the same
    world. *)
Theorem getFairRandom_in_range_retry_idle (fuel : nat) (R : Z) (key : string)
    (w : World) :
  1 <= R <= RAND_MAX ->
  exists v,
    App.getFairRandom R key w
    = Ret (mkFairValue v (generateHMAC key v)) (advance w)
    /\ 0 <= v < R
    /\ Part000.getFairRandom (S fuel) R key w
       = Ret (mkFairValue v (generateHMAC key v)) (advance w)
    /\ Part000.getFairRandom 1 R key w = App.getFairRandom R key w.
Proof.
  intros Hr. exists (entropy w (drawn w) mod R).
  rewrite !getFairRandom_retry_same, getFairRandom_run by assumption.
  repeat split; try reflexivity; apply Z.mod_pos_bound; lia.
Qed.

(** Outside these bounds both texts end with the range error of
    [crypto.randomInt]. *)
Lemma getFairRandom_refuses (fuel : nat) (R : Z) (key : string) (w : World) :
  R <= 0 \/ RAND_MAX < R ->
  App.getFairRandom R key w = Throw "ERR_OUT_OF_RANGE" w
  /\ Part000.getFairRandom (S fuel) R key w = Throw "ERR_OUT_OF_RANGE" w.
Proof.
  intros Hout. rewrite getFairRandom_retry_same.
  unfold App.getFairRandom.
  now rewrite (bind_Throw _ _ _ _ _ (crypto_randomInt_refuses R w Hout)).
Qed.

End FairValues.

Lemma getFairRandom_in_range_retry_idle_witness :
  exists v,
    @App.getFairRandom toy_runtime 6 "00" (world_of [] [45])
    = Ret (mkFairValue v (@generateHMAC toy_runtime "00" v))
          (advance (world_of [] [45]))
    /\ 0 <= v < 6
    /\ @Part000.getFairRandom toy_runtime 3 6 "00" (world_of [] [45])
       = Ret (mkFairValue v (@generateHMAC toy_runtime "00" v))
             (advance (world_of [] [45]))
    /\ @Part000.getFairRandom toy_runtime 1 6 "00" (world_of [] [45])
       = @App.getFairRandom toy_runtime 6 "00" (world_of [] [45]).
Proof.
  apply (@getFairRandom_in_range_retry_idle toy_runtime 2 6 "00"
           (world_of [] [45])).
  rewrite RAND_MAX_value. lia.
Defined.

(** C7 as the spec states it, for every range from 1 on, fails at
    [2^48]: [crypto.randomInt] refuses a range that wide. *)
Lemma getFairRandom_range_2_48_throws :
  1 <= 2 ^ 48
  /\ @App.getFairRandom toy_runtime (2 ^ 48) "00" (world_of [] [45])
     = Throw "ERR_OUT_OF_RANGE" (world_of [] [45])
  /\ @Part000.getFairRandom toy_runtime 1 (2 ^ 48) "00" (world_of [] [45])
     = Throw "ERR_OUT_OF_RANGE" (world_of [] [45]).
Proof. repeat split. cbv. discriminate. Qed.

(* ================================================================== *)
(** * The loops that ask for a number                                  *)
(* ================================================================== *)

(** The loop is the [do ... while] of the source: one [getUserInput], one
    [parseInt], and again when the test holds. *)
Lemma do_while_parseInt_unfold (prompt : string) (out_of_range : Z -> bool)
    (w : World) :
  do_while_parseInt prompt out_of_range (stdin w) w
  = bind (getUserInput prompt)
      (fun line =>
         match parseInt line with
         | None =>
             fun w' => do_while_parseInt prompt out_of_range (stdin w') w'
         | Some x =>
             if out_of_range x
             then fun w' => do_while_parseInt prompt out_of_range (stdin w') w'
             else ret x
         end) w.
Proof.
  unfold bind, getUserInput.
  destruct (stdin w) as [| line rest] eqn:E; cbn.
  - unfold set_stdin, write_stdout. cbn. now rewrite E.
  - destruct (parseInt line) as [x |]; [destruct (out_of_range x) |];
      reflexivity.
Qed.

Lemma first_accepted_in_range (out_of_range : Z -> bool)
    (lines rest : list string) (x : Z) :
  first_accepted out_of_range lines = Some (x, rest) ->
  out_of_range x = false.
Proof.
  induction lines as [| line more IH]; cbn; [discriminate |].
  destruct (parseInt line) as [y |]; [| exact IH].
  destruct (out_of_range y) eqn:E; [exact IH |].
  now intros [= <- _].
Qed.

(** The loop returns the first accepted number, having read the lines up
    to it and no random number. *)
Lemma do_while_parseInt_run (prompt : string) (out_of_range : Z -> bool)
    (lines rest : list string) (x : Z) (w : World) :
  first_accepted out_of_range lines = Some (x, rest) ->
  exists w', do_while_parseInt prompt out_of_range lines w = Ret x w'
             /\ stdin w' = rest /\ entropy w' = entropy w
             /\ drawn w' = drawn w.
Proof.
  revert w. induction lines as [| line more IH]; intros w; cbn;
    [discriminate |].
  destruct (parseInt line) as [y |].
  - destruct (out_of_range y).
    + intros E.
      destruct (IH (set_stdin more (write_stdout prompt w)) E)
        as [w' [R [A [B C]]]].
      exists w'. rewrite R. now repeat split.
    + intros [= <- <-]. eexists. now repeat split.
  - intros E.
    destruct (IH (set_stdin more (write_stdout prompt w)) E)
      as [w' [R [A [B C]]]].
    exists w'. rewrite R. now repeat split.
Qed.

(** Without an acceptable line the loop waits for ever: it never returns a
    number it would have refused, and it throws nothing. *)
Lemma do_while_parseInt_pending (prompt : string) (out_of_range : Z -> bool)
    (lines : list string) (w : World) :
  first_accepted out_of_range lines = None ->
  exists w', do_while_parseInt prompt out_of_range lines w = Pending w'.
Proof.
  revert w. induction lines as [| line more IH]; intros w; cbn.
  - intros _. now eexists.
  - destruct (parseInt line) as [y |]; [destruct (out_of_range y) |];
      try discriminate; intros E; apply IH; exact E.
Qed.

Lemma do_while_parseInt_Ret (prompt : string) (out_of_range : Z -> bool)
    (lines : list string) (x : Z) (w w' : World) :
  do_while_parseInt prompt out_of_range lines w = Ret x w' ->
  out_of_range x = false
  /\ first_accepted out_of_range lines = Some (x, stdin w').
Proof.
  intros R.
  destruct (first_accepted out_of_range lines) as [[y rest] |] eqn:E.
  - destruct (do_while_parseInt_run prompt _ _ _ _ w E) as [w1 [R1 [A _]]].
    rewrite R in R1. injection R1 as -> ->.
    split; [eapply first_accepted_in_range; eassumption | now rewrite A].
  - destruct (do_while_parseInt_pending prompt _ _ w E) as [w1 R1].
    rewrite R in R1. discriminate.
Qed.

Lemma off_the_die_false (x : Z) : off_the_die x = false <-> 0 <= x <= 5.
Proof.
  unfold off_the_die. rewrite orb_false_iff, Z.ltb_ge, Z.gtb_ltb, Z.ltb_ge.
  lia.
Qed.

Lemma off_the_options_false (options : list Dice) (x : Z) :
  off_the_options options x = false
  <-> 0 <= x < Z.of_nat (List.length options).
Proof.
  unfold off_the_options. rewrite orb_false_iff, Z.ltb_ge, Z.geb_leb, Z.leb_gt.
  lia.
Qed.

Lemma array_get_in_range {A : Type} (a : list A) (i : Z) :
  0 <= i < Z.of_nat (List.length a) ->
  exists x, array_get a i = Some x /\ In x a.
Proof.
  intros Hi. unfold array_get.
  destruct (i <? 0) eqn:E; [apply Z.ltb_lt in E; lia |].
  destruct (nth_error a (Z.to_nat i)) as [x |] eqn:N.
  - exists x. split; [reflexivity | eapply nth_error_In; eassumption].
  - apply nth_error_None in N. lia.
Qed.

Lemma array_get_In {A : Type} (a : list A) (i : Z) (x : A) :
  array_get a i = Some x -> In x a.
Proof.
  unfold array_get. destruct (i <? 0); [discriminate |].
  apply nth_error_In.
Qed.

Lemma generateKey_run (w : World) :
  generateKey w = Ret (key_at w) (advance w).
Proof. reflexivity. Qed.

Lemma bind_console_log {B : Type} (line : string) (k : unit -> IO B)
    (w : World) :
  bind (console_log line) k w = k tt (write_stdout line w).
Proof. reflexivity. Qed.

Ltac run_with E := unfold bind at 1; cbv beta; rewrite E.

(* ================================================================== *)
(** * One round (C1, C4)                                               *)
(* ================================================================== *)

Lemma six_in_range : 1 <= 6 <= RAND_MAX.
Proof. rewrite RAND_MAX_value. lia. Qed.

Lemma two_in_range : 1 <= 2 <= RAND_MAX.
Proof. rewrite RAND_MAX_value. lia. Qed.

Lemma house_value_range (R : Z) (w : World) :
  0 < R -> 0 <= house_value R w < R.
Proof. intros HR. unfold house_value. now apply Z.mod_pos_bound. Qed.

Section Rounds.
Context `{NodeRuntime}.

(** The first part of a round in [app.js]: once the user types an integer
    [c] from 0 to 5, both dice are thrown at [finalIndex c v], for [v] the
    house's number. *)
Lemma throws_run (pd cd : Dice) (w : World) (c : Z) (rest : list string) :
  first_accepted off_the_die (stdin w) = Some (c, rest) ->
  exists w',
    App.throws (Some pd) (Some cd) w
    = Ret (App.roll pd (App.finalIndex c (house_value 6 w)),
           App.roll cd (App.finalIndex c (house_value 6 w))) w'
    /\ stdin w' = rest
    /\ drawn w' = S (S (drawn w)).
Proof.
  intros E. unfold App.throws.
  rewrite (bind_Ret _ _ _ _ _ (generateKey_run w)).
  rewrite (bind_Ret _ _ _ _ _
             (getFairRandom_run 6 (key_at w) (advance w) six_in_range)).
  rewrite bind_console_log.
  match goal with
  | |- context [bind _ _ ?w0] =>
      destruct (do_while_parseInt_run "Add your number modulo 6 (0-5): "
                  off_the_die (stdin w0) rest c w0 E) as [w1 [R [A [B C]]]]
  end.
  run_with R.
  rewrite !bind_console_log. cbn [method_of value].
  unfold bind at 1. unfold ret at 1. unfold bind at 1. unfold ret at 1.
  rewrite bind_console_log. unfold ret.
  eexists. split; [reflexivity |]. cbn. split; [exact A | exact C].
Qed.

Lemma resolved_faces_spec_roll (pd cd : Dice) (c v : Z) :
  List.length (sides pd) = 6%nat -> List.length (sides cd) = 6%nat ->
  0 <= c <= 5 -> 0 <= v < 6 ->
  (App.roll pd (App.finalIndex c v), App.roll cd (App.finalIndex c v))
  = resolved_faces_spec (sides pd) (sides cd) c v.
Proof.
  intros Lp Lc Hc Hv.
  unfold resolved_faces_spec, resolve_spec, combined_index_spec.
  assert (I : App.finalIndex c v = (c + v) mod 6)
    by (unfold App.finalIndex; apply js_rem_nonneg; lia).
  pose proof (Z.mod_pos_bound (c + v) 6 ltac:(lia)) as B.
  rewrite I, !roll_six_sides by lia.
  now rewrite Z.mod_mod by lia.
Qed.

(** In [part_000] the throws are not tied to the exchange: two worlds in
    which the user gives the same number 2 and the house has the same
    number 3, and the same two dice, end with different throws; [app.js]
    gives the faces at the index 5 in the first of them, as it does in the
    second. *)
Lemma part000_throws_two_worlds :
  exists (w1 w2 w1' w2' w1'' : World),
    stdin w1 = ["2"] /\ stdin w2 = ["2"]
    /\ first_accepted off_the_die ["2"] = Some (2, [])
    /\ house_value 6 w1 = 3 /\ house_value 6 w2 = 3
    /\ Part000.throws 1 (Some die_1_to_6) (Some die_6_to_1) w1
       = Ret (Some 1, Some 6) w1'
    /\ Part000.throws 1 (Some die_1_to_6) (Some die_6_to_1) w2
       = Ret (Some 6, Some 1) w2'
    /\ App.throws (Some die_1_to_6) (Some die_6_to_1) w1
       = Ret (Some 6, Some 1) w1''
    /\ resolved_faces_spec (sides die_1_to_6) (sides die_6_to_1) 2 3
       = (Some 6, Some 1).
Proof.
  exists (world_of ["2"] [0; 3; 0; 0]), (world_of ["2"] [0; 3; 5; 5]).
  do 3 eexists.
  repeat (split; [vm_compute; reflexivity |]). reflexivity.
Qed.

(** C1.  In [app.js] the two throws of a round are the faces of the two
    dice at the index [(c + v) mod 6], for [c] the number the user gave and
    [v] the house's number: a function of the dice and these two numbers.
    In [part_000], where each [roll()] draws its own index, the throws are
    no function of the dice and these two numbers, so the two texts are not
    equivalent. *)
Theorem throws_at_the_combined_index :
  (forall (pd cd : Dice) (w : World) (c : Z) (rest : list string),
      List.length (sides pd) = 6%nat -> List.length (sides cd) = 6%nat ->
      first_accepted off_the_die (stdin w) = Some (c, rest) ->
      exists w',
        App.throws (Some pd) (Some cd) w
        = Ret (resolved_faces_spec (sides pd) (sides cd) c (house_value 6 w))
              w')
  /\ ~ (exists f : list Z -> list Z -> Z -> Z -> option Z * option Z,
         forall (pd cd : Dice) (w w' : World) (c : Z) (rest : list string)
                (faces : option Z * option Z),
           first_accepted off_the_die (stdin w) = Some (c, rest) ->
           Part000.throws 1 (Some pd) (Some cd) w = Ret faces w' ->
           faces = f (sides pd) (sides cd) c (house_value 6 w)).
Proof.
  split.
  - intros pd cd w c rest Lp Lc E.
    destruct (throws_run pd cd w c rest E) as [w' [R _]].
    exists w'. rewrite R. f_equal.
    apply resolved_faces_spec_roll; try assumption.
    + apply off_the_die_false. eapply first_accepted_in_range; eassumption.
    + apply house_value_range. lia.
  - intros [f F].
    destruct part000_throws_two_worlds
      as [w1 [w2 [w1' [w2' [_ [I1 [I2 [A [V1 [V2 [T1 [T2 _]]]]]]]]]]]].
    rewrite <- I1 in A.
    pose proof (F _ _ _ _ _ _ _ A T1) as F1.
    rewrite I1, <- I2 in A.
    pose proof (F _ _ _ _ _ _ _ A T2) as F2.
    rewrite V1 in F1. rewrite V2 in F2. rewrite <- F2 in F1. discriminate.
Qed.

(** The second part of a round, on two faces. *)
Lemma settle_faces (this : App.DiceGame) (u k : Z) (w : World) :
  exists this' w',
    App.settle this (Some u) (Some k) w = Ret this' w'
    /\ stdin w' = stdin w
    /\ App.diceOptions this' = App.diceOptions this
    /\ (k < u -> this' = App.user_scores this)
    /\ (u < k -> this' = App.computer_scores this)
    /\ (u = k -> this' = this).
Proof.
  unfold App.settle, js_gt, js_lt.
  destruct (u >? k) eqn:G.
  - rewrite Z.gtb_ltb in G. apply Z.ltb_lt in G.
    do 2 eexists. split; [reflexivity |].
    do 2 (split; [reflexivity |]).
    repeat split; intros; first [reflexivity | lia].
  - rewrite Z.gtb_ltb in G. apply Z.ltb_ge in G.
    destruct (u <? k) eqn:L.
    + apply Z.ltb_lt in L.
      do 2 eexists. split; [reflexivity |].
      do 2 (split; [reflexivity |]).
      repeat split; intros; first [reflexivity | lia].
    + apply Z.ltb_ge in L.
      do 2 eexists. split; [reflexivity |].
      do 2 (split; [reflexivity |]).
      repeat split; intros; first [reflexivity | lia].
Qed.

(** C4.  A round of [app.js] between two 6-sided dice, in which the user
    gives the number [c]: with [u] and [k] the faces of the user's and of
    the computer's die at the combined index, [playRound] returns; if [u]
    is greater the user's score goes up by one and the computer's stays, if
    [k] is greater the computer's score goes up by one and the user's
    stays, and if they are equal no score changes. *)
Theorem playRound_scores (this : App.DiceGame) (pd cd : Dice) (w : World)
    (c : Z) (rest : list string) :
  List.length (sides pd) = 6%nat -> List.length (sides cd) = 6%nat ->
  first_accepted off_the_die (stdin w) = Some (c, rest) ->
  exists (u k : Z) (this' : App.DiceGame) (w' : World),
    resolved_faces_spec (sides pd) (sides cd) c (house_value 6 w)
    = (Some u, Some k)
    /\ App.playRound this (Some pd) (Some cd) w = Ret this' w'
    /\ App.diceOptions this' = App.diceOptions this
    /\ (k < u ->
        App.user (App.scores this') = App.user (App.scores this) + 1
        /\ App.computer (App.scores this') = App.computer (App.scores this))
    /\ (u < k ->
        App.computer (App.scores this') = App.computer (App.scores this) + 1
        /\ App.user (App.scores this') = App.user (App.scores this))
    /\ (u = k -> App.scores this' = App.scores this).
Proof.
  intros Lp Lc E.
  destruct (throws_run pd cd w c rest E) as [w1 [R _]].
  assert (Hc : 0 <= c <= 5)
    by (apply off_the_die_false; eapply first_accepted_in_range; eassumption).
  pose proof (house_value_range 6 w ltac:(lia)) as Hv.
  rewrite (resolved_faces_spec_roll pd cd c _ Lp Lc Hc Hv) in R.
  unfold resolved_faces_spec, resolve_spec, combined_index_spec in *.
  pose proof (Z.mod_pos_bound (c + house_value 6 w) 6 ltac:(lia)) as Hi.
  rewrite Z.mod_mod in * by lia.
  destruct (nth_error_six (sides pd) _ Lp Hi) as [u [Eu _]].
  destruct (nth_error_six (sides cd) _ Lc Hi) as [k [Ek _]].
  rewrite Eu, Ek in *.
  destruct (settle_faces this u k w1) as [this' [w' [S [_ [D [G [L T]]]]]]].
  exists u, k, this', w'.
  split; [reflexivity |].
  split; [unfold App.playRound; run_with R; exact S |].
  split; [exact D |].
  split; [intros Hlt; now rewrite (G Hlt) |].
  split; [intros Hlt; now rewrite (L Hlt) |].
  intros Heq. now rewrite (T Heq).
Qed.

End Rounds.

Lemma playRound_scores_witness :
  exists (u k : Z) (this' : App.DiceGame) (w' : World),
    resolved_faces_spec (sides die_1_to_6) (sides die_6_to_1) 2
      (house_value 6 (world_of ["9"; "2"] [0; 3]))
    = (Some u, Some k)
    /\ @App.playRound toy_runtime (App.mkDiceGame [] (App.mkScores 4 7))
         (Some die_1_to_6) (Some die_6_to_1) (world_of ["9"; "2"] [0; 3])
       = Ret this' w'
    /\ App.diceOptions this' = []
    /\ (k < u ->
        App.user (App.scores this') = 4 + 1
        /\ App.computer (App.scores this') = 7)
    /\ (u < k ->
        App.computer (App.scores this') = 7 + 1
        /\ App.user (App.scores this') = 4)
    /\ (u = k -> App.scores this' = App.mkScores 4 7).
Proof.
  apply (@playRound_scores toy_runtime (App.mkDiceGame [] (App.mkScores 4 7))
           die_1_to_6 die_6_to_1 (world_of ["9"; "2"] [0; 3]) 2 []);
    reflexivity.
Defined.

Lemma throws_at_the_combined_index_witness :
  exists w',
    @App.throws toy_runtime (Some die_1_to_6) (Some die_6_to_1)
      (world_of ["x"; "2"] [0; 3])
    = Ret (resolved_faces_spec (sides die_1_to_6) (sides die_6_to_1) 2
             (house_value 6 (world_of ["x"; "2"] [0; 3]))) w'.
Proof.
  apply (proj1 (@throws_at_the_combined_index toy_runtime)
           die_1_to_6 die_6_to_1 (world_of ["x"; "2"] [0; 3]) 2 []);
    reflexivity.
Defined.

(* ================================================================== *)
(** * The first move (C9)                                              *)
(* ================================================================== *)

Section FirstMove.
Context `{NodeRuntime}.

(** [determineFirstMove] reads one line, whatever it holds, and asks no
    second time: the user moves first exactly when [parseInt] of that line
    is the house's number, and the computer in every other case. *)
Lemma determineFirstMove_run (w : World) (line : string) (rest : list string) :
  stdin w = line :: rest ->
  exists w',
    App.determineFirstMove w
    = Ret (if strict_eq (parseInt line) (house_value 2 w)
           then "user" else "computer") w'
    /\ stdin w' = rest
    /\ drawn w' = S (S (drawn w)).
Proof.
  intros E. unfold App.determineFirstMove.
  rewrite (bind_Ret _ _ _ _ _ (generateKey_run w)).
  rewrite (bind_Ret _ _ _ _ _
             (getFairRandom_run 2 (key_at w) (advance w) two_in_range)).
  rewrite bind_console_log.
  unfold bind at 1, getUserInput. cbn [stdin write_stdout advance].
  rewrite E. rewrite bind_console_log. unfold ret.
  eexists. split; [reflexivity |]. split; reflexivity.
Qed.

(** The two other inputs are asked for again until they are in range. *)
Lemma chooseDice_listing (options : list (nat * Dice)) (w : World) :
  exists w',
    fold_right
      (fun '(index, dice) rest =>
         console_log (toString (Z.of_nat index) ++ " - ["
                      ++ join "," (sides dice) ++ "]")%string ;; rest)
      (ret tt) options w = Ret tt w'
    /\ stdin w' = stdin w /\ entropy w' = entropy w /\ drawn w' = drawn w.
Proof.
  revert w. induction options as [| [index dice] more IH]; intros w;
    cbn [fold_right].
  - exists w. now repeat split.
  - rewrite bind_console_log.
    destruct (IH (write_stdout
                    (toString (Z.of_nat index) ++ " - ["
                     ++ join "," (sides dice) ++ "]")%string w))
      as [w' [R [A [B C]]]].
    exists w'. now repeat split.
Qed.

Lemma chooseDice_Ret (options : list Dice) (player : string)
    (w w' : World) (dice : Dice) :
  chooseDice options player w = Ret dice w' ->
  exists choice,
    0 <= choice < Z.of_nat (List.length options)
    /\ array_get options choice = Some dice
    /\ In dice options.
Proof.
  unfold chooseDice. intros R.
  apply bind_Ret_inv in R. destruct R as [[] [w1 [_ R]]].
  apply bind_Ret_inv in R. destruct R as [[] [w2 [_ R]]].
  apply bind_Ret_inv in R. destruct R as [choice [w3 [L R]]].
  apply do_while_parseInt_Ret in L. destruct L as [L _].
  apply off_the_options_false in L.
  exists choice. split; [exact L |].
  destruct (array_get options choice) as [d |] eqn:G; [| discriminate].
  rewrite bind_console_log in R. injection R as -> _.
  split; [reflexivity | eapply array_get_In; eassumption].
Qed.

Lemma chooseDice_run (options : list Dice) (player : string) (w : World)
    (choice : Z) (rest : list string) :
  first_accepted (off_the_options options) (stdin w) = Some (choice, rest) ->
  exists dice w',
    chooseDice options player w = Ret dice w'
    /\ array_get options choice = Some dice
    /\ stdin w' = rest /\ drawn w' = drawn w.
Proof.
  intros E. unfold chooseDice. rewrite bind_console_log.
  match goal with
  | |- context [bind (fold_right ?f ?z ?l) _ ?w0] =>
      destruct (chooseDice_listing l w0) as [w1 [R1 [A1 [B1 C1]]]]
  end.
  run_with R1.
  cbn [stdin write_stdout] in A1. rewrite <- A1 in E.
  destruct (do_while_parseInt_run "Your selection: " _ _ _ _ w1 E)
    as [w2 [R2 [A2 [B2 C2]]]].
  run_with R2.
  pose proof (first_accepted_in_range _ _ _ _ E) as Hc.
  apply off_the_options_false in Hc.
  destruct (array_get_in_range options choice Hc) as [dice [G _]].
  rewrite G, bind_console_log. unfold ret.
  exists dice. eexists. split; [reflexivity |].
  split; [reflexivity |]. cbn in C1 |- *. split; [exact A2 | congruence].
Qed.

End FirstMove.

(** C9 at the first-move guess.  The user answers the first question with
    [abc] and would answer a second one with [0]: [determineFirstMove]
    returns at once, the computer moves first, the [0] is still unread and
    the question has been written once. *)
Theorem first_move_guess_not_asked_again :
  exists w',
    @App.determineFirstMove toy_runtime (world_of ["abc"; "0"] [7; 0])
    = Ret "computer" w'
    /\ parseInt "abc" = None
    /\ stdin w' = ["0"]
    /\ List.length
         (filter (String.eqb "Try to guess my selection (0 or 1): ")
                 (stdout w')) = 1%nat.
Proof. eexists. split; [vm_compute; reflexivity |]. repeat split. Qed.

(** The same with a number that is neither 0 nor 1. *)
Example first_move_guess_out_of_range :
  exists w',
    @App.determineFirstMove toy_runtime (world_of ["7"; "0"] [7; 0])
    = Ret "computer" w'
    /\ parseInt "7" = Some 7
    /\ stdin w' = ["0"].
Proof. eexists. split; [vm_compute; reflexivity |]. repeat split. Qed.

(** In the two loops [parseInt] also lets through a line that only starts
    with an integer in range. *)
Example contribution_with_trailing_text :
  first_accepted off_the_die ["6"; "2.5"; "4"] = Some (2, ["4"]).
Proof. reflexivity. Qed.

(* ================================================================== *)
(** * The two dice of a round (C10)                                    *)
(* ================================================================== *)

Lemma same_object_true (a b : Dice) : same_object a b = true <-> addr a = addr b.
Proof. unfold same_object. apply Nat.eqb_eq. Qed.

Lemma same_object_false (a b : Dice) :
  same_object a b = false <-> addr a <> addr b.
Proof. unfold same_object. apply Nat.eqb_neq. Qed.

(** Among objects with different identities, the identity tells the
    object. *)
Lemma addr_tells_object (options : list Dice) (a b : Dice) :
  NoDup (map addr options) -> In a options -> In b options ->
  addr a = addr b -> a = b.
Proof.
  induction options as [| d more IH]; cbn; [intros _ [] |].
  intros N Ha Hb E. inversion N as [| x l Hnot N']; subst.
  destruct Ha as [<- | Ha], Hb as [<- | Hb].
  - reflexivity.
  - exfalso. apply Hnot. rewrite E. now apply in_map.
  - exfalso. apply Hnot. rewrite <- E. now apply in_map.
  - now apply IH.
Qed.

(** [find(d => d !== chosen)] among at least two distinct objects. *)
Lemma find_other (options : list Dice) (chosen : Dice) :
  NoDup (map addr options) -> (2 <= List.length options)%nat ->
  In chosen options ->
  exists other before after,
    array_find (fun d => negb (same_object d chosen)) options = Some other
    /\ options = (before ++ other :: after)%list
    /\ (forall d, In d before -> d = chosen)
    /\ same_object other chosen = false.
Proof.
  intros N L Hin.
  destruct options as [| d0 [| d1 more]]; cbn in L; try lia.
  unfold array_find. cbn [find].
  destruct (same_object d0 chosen) eqn:E0; cbn [negb].
  - apply same_object_true in E0.
    assert (d0 = chosen)
      by (eapply addr_tells_object; eauto; now left).
    subst d0.
    assert (E1 : same_object d1 chosen = false).
    { apply same_object_false. cbn in N. inversion N as [| x l Hnot _]; subst.
      intros E. apply Hnot. left. exact E. }
    rewrite E1. cbn [negb].
    exists d1, [chosen], more. repeat split; try assumption.
    intros d [<- | []]. reflexivity.
  - exists d0, [], (d1 :: more). repeat split; try assumption.
    intros d [].
Qed.

Section Picking.
Context `{NodeRuntime}.

Lemma new_Dice_each_Ok (args : list string) (a : nat) (dice : list Dice) :
  new_Dice_each a args = Ok dice ->
  map addr dice = seq a (List.length args)
  /\ Forall (fun d => List.length (sides d) = 6%nat
                      /\ Forall (fun z => 1 <= z) (sides d)) dice.
Proof.
  revert a dice. induction args as [| arg rest IH]; intros a dice; cbn.
  - intros [= <-]. split; [reflexivity | constructor].
  - destruct (Dice_constructor a (map Number (split "," arg)))
      as [d | e] eqn:D; [| discriminate].
    destruct (new_Dice_each (S a) rest) as [others | e] eqn:R;
      [| discriminate].
    intros [= <-].
    destruct (Dice_constructor_Ok _ _ _ D) as [A [_ [L F]]].
    destruct (IH (S a) others R) as [M G].
    cbn. rewrite A, M. split; [reflexivity | now constructor].
Qed.

(** What a constructed game holds: as many dice as there were arguments, at
    least 3, each a different object with 6 sides, and no points. *)
Lemma DiceGame_constructor_Ok (args : list string) (this : App.DiceGame) :
  App.DiceGame_constructor args = Ok this ->
  NoDup (map addr (App.diceOptions this))
  /\ (3 <= List.length (App.diceOptions this))%nat
  /\ Forall (fun d => List.length (sides d) = 6%nat) (App.diceOptions this)
  /\ App.scores this = App.mkScores 0 0.
Proof.
  unfold App.DiceGame_constructor.
  destruct (Nat.ltb_spec (List.length args) 3) as [L | L]; [discriminate |].
  destruct (new_Dice_each 0 args) as [dice | e] eqn:E; [| discriminate].
  intros [= <-]. cbn.
  destruct (new_Dice_each_Ok _ _ _ E) as [M F].
  repeat split.
  - rewrite M. apply seq_NoDup.
  - rewrite <- (length_map addr), M, length_seq. exact L.
  - eapply Forall_impl; [| exact F]. now intros d [X _].
Qed.

(** A game that the constructor made is playable, and stays so: no round
    changes its options ([round_Ret] below). *)
Lemma DiceGame_constructor_playable (args : list string)
    (this : App.DiceGame) :
  App.DiceGame_constructor args = Ok this -> playable (App.diceOptions this).
Proof.
  intros C. destruct (DiceGame_constructor_Ok args this C) as [N [L _]].
  split; [exact N | lia].
Qed.

(** C10.  In every round of a game whose options are at least two
    different objects, as they are in a game that the constructor made,
    whatever the scores: when the choice of the dice of the round returns,
    the side that chose has an option [chosen] and the other side has
    [other], the first of the options, in the order of the arguments, that
    is not the object [chosen].  The two are different objects, whatever
    their faces. *)
Theorem round_dice_distinct (this : App.DiceGame)
    (firstPlayer : string) (w w' : World) (userDice computerDice : option Dice) :
  playable (App.diceOptions this) ->
  App.pick_dice this firstPlayer w = Ret (userDice, computerDice) w' ->
  exists chosen other before after,
    (if String.eqb firstPlayer "user"
     then userDice = Some chosen /\ computerDice = Some other
     else computerDice = Some chosen /\ userDice = Some other)
    /\ In chosen (App.diceOptions this)
    /\ App.diceOptions this = (before ++ other :: after)%list
    /\ (forall d, In d before -> d = chosen)
    /\ same_object other chosen = false
    /\ addr other <> addr chosen.
Proof.
  intros [N L] P.
  unfold App.pick_dice in P.
  destruct (String.eqb firstPlayer "user");
    apply bind_Ret_inv in P; destruct P as [chosen [w1 [Ch P]]];
    apply chooseDice_Ret in Ch; destruct Ch as [choice [_ [_ Hin]]];
    destruct (find_other (App.diceOptions this) chosen N L Hin)
      as [other [before [after [F [E [B S]]]]]];
    unfold ret in P; rewrite F in P; injection P as <- <- _;
    exists chosen, other, before, after;
    (split; [now split |]);
    repeat split; try assumption; now apply same_object_false.
Qed.

(** [part_000] chooses the dice of its round with the same text. *)
Lemma Part000_pick_dice_same (options : list Dice) (s : App.Scores)
    (firstPlayer : string) (w : World) :
  Part000.pick_dice (Part000.mkDiceGame options) firstPlayer w
  = App.pick_dice (App.mkDiceGame options s) firstPlayer w.
Proof. reflexivity. Qed.

(** When the first mover types the index of an option, the choice
    returns. *)
Lemma pick_dice_run (this : App.DiceGame) (firstPlayer : string) (w : World)
    (choice : Z) (rest : list string) :
  first_accepted (off_the_options (App.diceOptions this)) (stdin w)
  = Some (choice, rest) ->
  exists dice w',
    App.pick_dice this firstPlayer w = Ret dice w'
    /\ stdin w' = rest /\ drawn w' = drawn w.
Proof.
  intros E. unfold App.pick_dice.
  destruct (String.eqb firstPlayer "user").
  - destruct (chooseDice_run _ "You" w choice rest E)
      as [d [w' [R [_ [A B]]]]].
    run_with R. unfold ret. do 2 eexists. now repeat split.
  - destruct (chooseDice_run _ "Computer" w choice rest E)
      as [d [w' [R [_ [A B]]]]].
    run_with R. unfold ret. do 2 eexists. now repeat split.
Qed.

End Picking.

Lemma round_dice_distinct_witness :
  exists w' : World,
    playable [mkDice 0 [1; 2; 3; 4; 5; 6];
              mkDice 1 [1; 2; 3; 4; 5; 6];
              mkDice 2 [1; 2; 3; 4; 5; 6]]
    /\ App.pick_dice
         (App.mkDiceGame [mkDice 0 [1; 2; 3; 4; 5; 6];
                          mkDice 1 [1; 2; 3; 4; 5; 6];
                          mkDice 2 [1; 2; 3; 4; 5; 6]] (App.mkScores 2 1))
         "user" (world_of ["3"; "0"] [])
       = Ret (Some (mkDice 0 [1; 2; 3; 4; 5; 6]),
              Some (mkDice 1 [1; 2; 3; 4; 5; 6])) w'
    /\ exists chosen other before after,
         (Some (mkDice 0 [1; 2; 3; 4; 5; 6]) = Some chosen
          /\ Some (mkDice 1 [1; 2; 3; 4; 5; 6]) = Some other)
         /\ In chosen [mkDice 0 [1; 2; 3; 4; 5; 6];
                       mkDice 1 [1; 2; 3; 4; 5; 6];
                       mkDice 2 [1; 2; 3; 4; 5; 6]]
         /\ [mkDice 0 [1; 2; 3; 4; 5; 6];
             mkDice 1 [1; 2; 3; 4; 5; 6];
             mkDice 2 [1; 2; 3; 4; 5; 6]] = (before ++ other :: after)%list
         /\ (forall d, In d before -> d = chosen)
         /\ same_object other chosen = false
         /\ addr other <> addr chosen.
Proof.
  assert (P : playable [mkDice 0 [1; 2; 3; 4; 5; 6];
                        mkDice 1 [1; 2; 3; 4; 5; 6];
                        mkDice 2 [1; 2; 3; 4; 5; 6]]).
  { split; [| cbn; lia].
    cbn. repeat constructor; cbn; intuition discriminate. }
  eexists. split; [exact P |]. split; [vm_compute; reflexivity |].
  eapply (round_dice_distinct
            (App.mkDiceGame [mkDice 0 [1; 2; 3; 4; 5; 6];
                             mkDice 1 [1; 2; 3; 4; 5; 6];
                             mkDice 2 [1; 2; 3; 4; 5; 6]] (App.mkScores 2 1))
            "user" (world_of ["3"; "0"] []));
    [exact P | vm_compute; reflexivity].
Defined.

(* ================================================================== *)
(** * The end of the game (C5)                                         *)
(* ================================================================== *)

Lemma final_message_cases (s : App.Scores) :
  (App.computer s < App.user s ->
   App.final_message s = "Congratulations, you win!")
  /\ (App.user s <= App.computer s ->
      App.final_message s = "I win the game!").
Proof.
  unfold App.final_message. rewrite Z.gtb_ltb.
  destruct (App.computer s <? App.user s) eqn:E.
  - apply Z.ltb_lt in E. split; [reflexivity | lia].
  - apply Z.ltb_ge in E. split; [lia | reflexivity].
Qed.

Section GameEnd.
Context `{NodeRuntime}.

(** When [playGame] returns, the last two lines written are the scores and
    the closing message for these scores, and the interface is closed. *)
Lemma playGame_Ret (this this' : App.DiceGame) (w w' : World) :
  App.playGame this w = Ret this' w' ->
  exists out,
    stdout w'
    = (out ++ [("Final Scores - You: "
                ++ toString (App.user (App.scores this'))
                ++ ", Computer: "
                ++ toString (App.computer (App.scores this')))%string;
               App.final_message (App.scores this')])%list
    /\ rl_closed w' = true.
Proof.
  unfold App.playGame. intros R.
  rewrite bind_console_log in R.
  apply bind_Ret_inv in R. destruct R as [answer [w1 [_ R]]].
  apply bind_Ret_inv in R. destruct R as [final [w2 [_ R]]].
  rewrite !bind_console_log in R. unfold bind, rl_close, ret in R.
  injection R as <- <-. cbn.
  exists (stdout w2). split; [| reflexivity].
  now rewrite <- app_assoc.
Qed.

(** C5, as the code has it.  When [playGame] returns, the line it ends on
    is decided by comparing the two scores: the user is congratulated when
    the user's score is the greater, and in every other case, a tie
    included, the computer declares itself the winner. *)
Theorem final_message_by_comparison (this this' : App.DiceGame)
    (w w' : World) :
  App.playGame this w = Ret this' w' ->
  last (stdout w') "" = App.final_message (App.scores this')
  /\ (App.computer (App.scores this') < App.user (App.scores this') ->
      App.final_message (App.scores this') = "Congratulations, you win!")
  /\ (App.user (App.scores this') < App.computer (App.scores this') ->
      App.final_message (App.scores this') = "I win the game!")
  /\ (App.user (App.scores this') = App.computer (App.scores this') ->
      App.final_message (App.scores this') = "I win the game!").
Proof.
  intros R. apply playGame_Ret in R. destruct R as [out [E _]].
  destruct (final_message_cases (App.scores this')) as [U C].
  split; [| split; [exact U | split; intros; apply C; lia]].
  rewrite E.
  change (last (out ++ [?a; ?b]) "") with (last (out ++ [a] ++ [b]) "").
  rewrite app_assoc. apply last_last.
Qed.

(** With no round to play the game still ends, on the computer's line. *)
Lemma playGame_no_round (this : App.DiceGame) (w : World) (answer : string)
    (rest : list string) :
  stdin w = answer :: rest ->
  iterations (parseInt answer) = O ->
  exists w', App.playGame this w = Ret this w' /\ stdin w' = rest.
Proof.
  intros E Z. unfold App.playGame.
  rewrite bind_console_log.
  unfold bind at 1, getUserInput. cbn [stdin write_stdout]. rewrite E, Z.
  cbn [App.rounds_from]. unfold bind, ret, console_log, rl_close.
  eexists. split; reflexivity.
Qed.

End GameEnd.

(** A game of one round: the user guesses the house's bit, takes the die
    with the faces 1 to 6 against the one with the faces 6 to 1, and wins
    the round at the index 5, and the game 1 to 0. *)
Lemma final_message_by_comparison_witness :
  exists (this' : App.DiceGame) (w' : World),
    @App.playGame toy_runtime
      (App.mkDiceGame [mkDice 0 [1; 2; 3; 4; 5; 6];
                       mkDice 1 [6; 5; 4; 3; 2; 1];
                       mkDice 2 [1; 2; 3; 4; 5; 6]] (App.mkScores 0 0))
      (world_of ["1"; "0"; "0"; "2"] [0; 0; 0; 3]) = Ret this' w'
    /\ App.scores this' = App.mkScores 1 0
    /\ last (stdout w') "" = App.final_message (App.scores this')
    /\ (App.computer (App.scores this') < App.user (App.scores this') ->
        App.final_message (App.scores this') = "Congratulations, you win!")
    /\ (App.user (App.scores this') < App.computer (App.scores this') ->
        App.final_message (App.scores this') = "I win the game!")
    /\ (App.user (App.scores this') = App.computer (App.scores this') ->
        App.final_message (App.scores this') = "I win the game!").
Proof.
  do 2 eexists. split; [vm_compute; reflexivity |].
  split; [reflexivity |].
  eapply (@final_message_by_comparison toy_runtime
            (App.mkDiceGame [mkDice 0 [1; 2; 3; 4; 5; 6];
                             mkDice 1 [6; 5; 4; 3; 2; 1];
                             mkDice 2 [1; 2; 3; 4; 5; 6]] (App.mkScores 0 0))
            _ (world_of ["1"; "0"; "0"; "2"] [0; 0; 0; 3])).
  vm_compute. reflexivity.
Defined.

(** C5 as the spec states it fails on a tie: the game made from three dice
    with the same faces plays one round, which is a tie, ends 0 to 0, and
    the line it ends on is the computer's, not the user's. *)
Lemma tie_declares_the_computer :
  exists (this' : App.DiceGame) (w' : World),
    @App.DiceGame_constructor toy_runtime
      ["1,2,3,4,5,6"; "1,2,3,4,5,6"; "1,2,3,4,5,6"]
    = Ok (App.mkDiceGame [mkDice 0 [1; 2; 3; 4; 5; 6];
                          mkDice 1 [1; 2; 3; 4; 5; 6];
                          mkDice 2 [1; 2; 3; 4; 5; 6]] (App.mkScores 0 0))
    /\ @App.playGame toy_runtime
         (App.mkDiceGame [mkDice 0 [1; 2; 3; 4; 5; 6];
                          mkDice 1 [1; 2; 3; 4; 5; 6];
                          mkDice 2 [1; 2; 3; 4; 5; 6]] (App.mkScores 0 0))
         (world_of ["1"; "0"; "0"; "2"] [0; 0; 0; 3]) = Ret this' w'
    /\ App.user (App.scores this') = App.computer (App.scores this')
    /\ last (stdout w') "" = "I win the game!"
    /\ App.final_message (App.scores this') = "I win the game!"
    /\ String.eqb (App.final_message (App.scores this'))
                  "Congratulations, you win!" = false.
Proof.
  do 2 eexists. split; [reflexivity |].
  split; [vm_compute; reflexivity |]. repeat split.
Qed.

(** The program on the scenario of the spec, with the stand-in runtime: the
    second argument has 3 faces; nothing is read, drawn or printed. *)
Lemma construction_fails_iff_witness :
  exists e,
    @App.DiceGame_constructor toy_runtime
      ["2,2,4,4,9,9"; "1,2,3"; "3,3,5,5,7,7"] = Error e
    /\ @App.main toy_runtime ["2,2,4,4,9,9"; "1,2,3"; "3,3,5,5,7,7"]
         (world_of ["1"; "0"] [5; 1])
       = Ret tt (write_stderr ("Error: " ++ e)%string
                   (world_of ["1"; "0"] [5; 1])).
Proof.
  destruct (proj2 (proj2 (@construction_fails_iff toy_runtime
                            ["2,2,4,4,9,9"; "1,2,3"; "3,3,5,5,7,7"]))
              (or_intror (or_introl eq_refl))) as [e E].
  exists e. split; [exact E |].
  apply (proj1 (proj2 (@construction_fails_iff toy_runtime
                         ["2,2,4,4,9,9"; "1,2,3"; "3,3,5,5,7,7"]))).
  exact E.
Defined.

(* ================================================================== *)
(** * Numbers typed and numbers shown                                  *)
(* ================================================================== *)

Lemma decimal_after_of_uint_acc (d : Decimal.uint) (acc : positive) :
  decimal_after d (Z.pos acc) = Z.pos (Pos.of_uint_acc d acc).
Proof.
  revert acc. induction d; intros acc; cbn [decimal_after Pos.of_uint_acc];
    try reflexivity;
    match goal with
    | |- decimal_after _ ?a = Z.pos (Pos.of_uint_acc _ ?b) =>
        replace a with (Z.pos b) by lia; apply IHd
    end.
Qed.

Lemma decimal_after_of_uint (d : Decimal.uint) :
  decimal_after d 0 = Z.of_N (Pos.of_uint d).
Proof.
  induction d; cbn [decimal_after Pos.of_uint]; try reflexivity;
    try exact IHd;
    match goal with
    | |- decimal_after _ ?a = Z.of_N (N.pos (Pos.of_uint_acc _ ?b)) =>
        replace a with (Z.pos b) by lia; apply decimal_after_of_uint_acc
    end.
Qed.

Lemma decimal_after_to_uint (p : positive) :
  decimal_after (Pos.to_uint p) 0 = Z.pos p.
Proof.
  now rewrite decimal_after_of_uint, DecimalPos.Unsigned.of_to.
Qed.

Lemma parse_digits_step (R : Z) (c : ascii) (s : string) (acc : option Z)
    (k : Z) :
  digit_value c = Some k -> (k <? R) = true ->
  parse_digits R (String c s) acc
  = parse_digits R s
      (Some (match acc with Some a => a * R + k | None => k end)).
Proof. intros D L. cbn [parse_digits]. now rewrite D, L. Qed.

Lemma parse_digits_stop (R : Z) (c : ascii) (s : string) (acc : option Z) :
  (match digit_value c with Some k => k <? R | None => false end) = false ->
  parse_digits R (String c s) acc = acc.
Proof.
  intros D. cbn [parse_digits].
  destruct (digit_value c) as [k |]; [now rewrite D | reflexivity].
Qed.

(** Reading the digits of a numeral, after an accumulator that is set. *)
Lemma parse_digits_numeral (d : Decimal.uint) (acc : Z) (tail : string) :
  parse_digits 10 (NilEmpty.string_of_uint d ++ tail) (Some acc)
  = parse_digits 10 tail (Some (decimal_after d acc)).
Proof.
  revert acc. induction d; intros acc;
    cbn [NilEmpty.string_of_uint String.append decimal_after];
    try reflexivity;
    (erewrite parse_digits_step; [| reflexivity | reflexivity]);
    rewrite IHd; do 3 f_equal;
    match goal with
    | |- context [Z.of_nat ?n] =>
        let v := eval vm_compute in (Z.of_nat n) in
        change (Z.of_nat n) with v
    end; lia.
Qed.

(** The same with no digit read yet. *)
Lemma parse_digits_numeral_first (d : Decimal.uint) (tail : string) :
  d <> Decimal.Nil ->
  parse_digits 10 (NilEmpty.string_of_uint d ++ tail) None
  = parse_digits 10 tail (Some (decimal_after d 0)).
Proof.
  intros N. destruct d; try contradiction;
    cbn [NilEmpty.string_of_uint String.append decimal_after];
    (erewrite parse_digits_step; [| reflexivity | reflexivity]);
    rewrite parse_digits_numeral; reflexivity.
Qed.

Lemma to_uint_not_Nil (p : positive) : Pos.to_uint p <> Decimal.Nil.
Proof.
  intros E. pose proof (decimal_after_to_uint p) as V.
  rewrite E in V. cbn in V. discriminate.
Qed.

Lemma trim_start_nonwhite (c : ascii) (s : string) :
  is_white c = false -> trim_start (String c s) = String c s.
Proof. intros W. cbn [trim_start]. now rewrite W. Qed.

Lemma parseInt_digit_first (c : ascii) (rest : string) :
  is_decimal_digit c = true ->
  (c = "0"%char ->
   match rest with
   | String c2 _ => negb (Ascii.eqb c2 "x") && negb (Ascii.eqb c2 "X")
   | EmptyString => true
   end = true) ->
  parseInt (String c rest) = parse_digits 10 (String c rest) None.
Proof.
  intros D X.
  assert (F : forall o : option Z,
             match o with Some n => Some (1 * n) | None => None end = o)
    by (intros [n |]; [f_equal; lia | reflexivity]).
  destruct c as [[] [] [] [] [] [] [] []]; try discriminate D;
    unfold parseInt; rewrite trim_start_nonwhite by reflexivity.
  10: { specialize (X eq_refl).
        destruct rest as [| c2 r]; [reflexivity |].
        destruct c2 as [[] [] [] [] [] [] [] []]; try discriminate X;
          cbv -[parse_digits Z.mul]; apply F. }
  all: cbv -[parse_digits Z.mul]; apply F.
Qed.

Lemma parseInt_minus_digit (c : ascii) (rest : string) :
  is_decimal_digit c = true ->
  (c = "0"%char ->
   match rest with
   | String c2 _ => negb (Ascii.eqb c2 "x") && negb (Ascii.eqb c2 "X")
   | EmptyString => true
   end = true) ->
  parseInt (String "-" (String c rest))
  = match parse_digits 10 (String c rest) None with
    | Some n => Some (- n)
    | None => None
    end.
Proof.
  intros D X.
  assert (F : forall o : option Z,
             match o with Some n => Some (-1 * n) | None => None end
             = match o with Some n => Some (- n) | None => None end)
    by (intros [n |]; [f_equal; lia | reflexivity]).
  unfold parseInt; rewrite trim_start_nonwhite by reflexivity.
  destruct c as [[] [] [] [] [] [] [] []]; try discriminate D.
  10: { specialize (X eq_refl).
        destruct rest as [| c2 r]; [reflexivity |].
        destruct c2 as [[] [] [] [] [] [] [] []]; try discriminate X;
          cbv -[parse_digits Z.mul Z.opp]; apply F. }
  all: cbv -[parse_digits Z.mul Z.opp]; apply F.
Qed.

Lemma nzhead_not_D0 (d u : Decimal.uint) : Decimal.nzhead d <> Decimal.D0 u.
Proof. induction d; cbn; try discriminate. exact IHd. Qed.

(** The numeral of a positive number starts with a digit that is not 0. *)
Lemma to_uint_not_D0 (p : positive) (u : Decimal.uint) :
  Pos.to_uint p <> Decimal.D0 u.
Proof.
  intros E.
  pose proof (DecimalPos.Unsigned.to_of (Pos.to_uint p)) as N.
  rewrite DecimalPos.Unsigned.of_to in N. cbn [N.to_uint] in N.
  rewrite E in N. unfold Decimal.unorm in N.
  destruct (Decimal.nzhead (Decimal.D0 u)) eqn:Z;
    try (symmetry in N; revert N; rewrite <- Z; apply nzhead_not_D0).
  injection N as ->.
  apply (DecimalPos.Unsigned.to_uint_nonzero p). exact E.
Qed.

Lemma no_digit_next_stop (tail : string) (acc : option Z) :
  no_digit_next tail = true -> parse_digits 10 tail acc = acc.
Proof.
  destruct tail as [| c r]; [reflexivity |]. cbn [no_digit_next].
  intros E. apply parse_digits_stop.
  unfold is_decimal_digit in E. now apply negb_true_iff in E.
Qed.

(** [parseInt] reads back the numeral of a positive number, whatever
    follows it that is no digit. *)
Lemma parseInt_numeral (p : positive) (tail : string) :
  no_digit_next tail = true ->
  parse_digits 10 (NilEmpty.string_of_uint (Pos.to_uint p) ++ tail) None
  = Some (Z.pos p)
  /\ exists c rest,
       (NilEmpty.string_of_uint (Pos.to_uint p) ++ tail)%string
       = String c rest
       /\ is_decimal_digit c = true /\ c <> "0"%char.
Proof.
  intros E. split.
  - rewrite parse_digits_numeral_first by apply to_uint_not_Nil.
    now rewrite no_digit_next_stop, decimal_after_to_uint.
  - pose proof (to_uint_not_Nil p) as N.
    pose proof (to_uint_not_D0 p) as Z.
    destruct (Pos.to_uint p) as [| u | u | u | u | u | u | u | u | u | u];
      try contradiction; try (exfalso; now apply (Z u));
      cbn [NilEmpty.string_of_uint String.append];
      do 2 eexists; (split; [reflexivity |]);
      (split; [reflexivity | discriminate]).
Qed.

(** [parseInt(String(z) + tail)] is [z], for every integer [z] and every
    [tail] that may follow its numeral. *)
Lemma parseInt_toString (z : Z) (tail : string) :
  follows_numeral z tail = true -> parseInt (toString z ++ tail) = Some z.
Proof.
  unfold follows_numeral. intros F.
  apply andb_prop in F. destruct F as [E X].
  destruct z as [| p | p]; unfold toString; cbn [Z.to_int].
  - change (NilZero.string_of_int (Decimal.Pos Decimal.zero) ++ tail)%string
      with (String "0" tail).
    rewrite parseInt_digit_first.
    + erewrite parse_digits_step by reflexivity.
      now rewrite no_digit_next_stop.
    + reflexivity.
    + intros _. cbn in X. exact X.
  - destruct (parseInt_numeral p tail E) as [V [c [rest [S [D N]]]]].
    unfold NilZero.string_of_int, NilZero.string_of_uint.
    pose proof (to_uint_not_Nil p) as NN.
    destruct (Pos.to_uint p) eqn:U; try contradiction;
      rewrite S, parseInt_digit_first, <- S; auto; try contradiction.
  - destruct (parseInt_numeral p tail E) as [V [c [rest [S [D N]]]]].
    unfold NilZero.string_of_int, NilZero.string_of_uint.
    pose proof (to_uint_not_Nil p) as NN.
    destruct (Pos.to_uint p) eqn:U; try contradiction;
      cbn [String.append]; rewrite S, parseInt_minus_digit, <- S, V; auto;
      try contradiction.
Qed.

(** Why the numeral [0] is a case apart: [0x] starts a hexadecimal
    numeral, which [parseInt] reads or finds empty; after another numeral
    an [x] is only the end of the number. *)
Example parseInt_hexadecimal_prefix :
  parseInt "0x5" = Some 5 /\ parseInt "0x" = None /\ parseInt "0X1" = Some 1
  /\ parseInt "2x" = Some 2 /\ parseInt "0y" = Some 0.
Proof. repeat split. Qed.

(* ================================================================== *)
(** * What the loops write and read                                    *)
(* ================================================================== *)

(** The loop in full: it asks once per line read, up to and including the
    accepted one, and touches nothing else. *)
Lemma do_while_parseInt_transcript (prompt : string)
    (out_of_range : Z -> bool) (lines rest : list string) (x : Z)
    (w : World) :
  first_accepted out_of_range lines = Some (x, rest) ->
  exists n,
    do_while_parseInt prompt out_of_range lines w
    = Ret x (mkWorld rest (entropy w) (drawn w)
               (stdout w ++ repeat prompt (S n))%list
               (stderr w) (rl_closed w))
    /\ List.length lines = (S n + List.length rest)%nat.
Proof.
  revert w. induction lines as [| line more IH]; intros w; cbn;
    [discriminate |].
  assert (Again :
    first_accepted out_of_range more = Some (x, rest) ->
    exists n,
      do_while_parseInt prompt out_of_range more
        (set_stdin more (write_stdout prompt w))
      = Ret x (mkWorld rest (entropy w) (drawn w)
                 (stdout w ++ repeat prompt (S n))%list
                 (stderr w) (rl_closed w))
      /\ S (List.length more) = (S n + List.length rest)%nat).
  { intros E.
    destruct (IH (set_stdin more (write_stdout prompt w)) E) as [n [R L]].
    exists (S n). rewrite R. cbn [set_stdin write_stdout stdin entropy drawn
                                 stdout stderr rl_closed].
    split; [| lia].
    do 2 f_equal. rewrite <- app_assoc. reflexivity. }
  destruct (parseInt line) as [y |]; [| exact Again].
  destruct (out_of_range y); [exact Again |].
  intros [= <- <-]. exists O. split; [reflexivity | reflexivity].
Qed.

(** Without an acceptable line the loop reads all there is and waits. *)
Lemma do_while_parseInt_waits (prompt : string) (out_of_range : Z -> bool)
    (lines : list string) (w : World) :
  first_accepted out_of_range lines = None ->
  exists w',
    do_while_parseInt prompt out_of_range lines w = Pending w'
    /\ stdin w' = [] /\ entropy w' = entropy w /\ drawn w' = drawn w.
Proof.
  revert w. induction lines as [| line more IH]; intros w; cbn.
  - intros _. eexists. now repeat split.
  - assert (Again :
      first_accepted out_of_range more = None ->
      exists w',
        do_while_parseInt prompt out_of_range more
          (set_stdin more (write_stdout prompt w)) = Pending w'
        /\ stdin w' = [] /\ entropy w' = entropy w /\ drawn w' = drawn w).
    { intros E.
      destruct (IH (set_stdin more (write_stdout prompt w)) E)
        as [w' [R [A [B C]]]].
      exists w'. now repeat split. }
    destruct (parseInt line) as [y |]; [| exact Again].
    destruct (out_of_range y); [exact Again | discriminate].
Qed.

Lemma first_accepted_head (out_of_range : Z -> bool) (line : string)
    (rest : list string) (x : Z) :
  parseInt line = Some x -> out_of_range x = false ->
  first_accepted out_of_range (line :: rest) = Some (x, rest).
Proof. intros P O. cbn. now rewrite P, O. Qed.

Lemma array_get_of_nat {A : Type} (a : list A) (i : nat) :
  array_get a (Z.of_nat i) = nth_error a i.
Proof.
  unfold array_get.
  destruct (Z.of_nat i <? 0) eqn:E; [apply Z.ltb_lt in E; lia |].
  now rewrite Nat2Z.id.
Qed.

(** X1.  The user who types the index of an option as a decimal numeral,
    followed or not by a text that starts with no digit and, after the
    index 0, with no [x] or [X], gets that option from [chooseDice], with
    one line read and no random number drawn. *)
Theorem chooseDice_shown_index (options : list Dice) (player : string)
    (w : World) (i : nat) (dice : Dice) (tail : string)
    (rest : list string) :
  nth_error options i = Some dice ->
  follows_numeral (Z.of_nat i) tail = true ->
  stdin w = (toString (Z.of_nat i) ++ tail)%string :: rest ->
  exists w',
    chooseDice options player w = Ret dice w'
    /\ stdin w' = rest /\ drawn w' = drawn w.
Proof.
  intros N T E.
  assert (I : (i < List.length options)%nat)
    by (apply nth_error_Some; congruence).
  assert (F : first_accepted (off_the_options options) (stdin w)
              = Some (Z.of_nat i, rest)).
  { rewrite E. apply first_accepted_head.
    - now apply parseInt_toString.
    - apply off_the_options_false. lia. }
  destruct (chooseDice_run options player w _ _ F)
    as [d [w' [R [G [A B]]]]].
  rewrite array_get_of_nat, N in G. injection G as <-.
  now exists w'.
Qed.

Lemma chooseDice_shown_index_witness :
  exists w',
    chooseDice [die_1_to_6; die_6_to_1; die_1_to_6] "You"
      (world_of ["1 please"; "0"] [])
    = Ret die_6_to_1 w'
    /\ stdin w' = ["0"] /\ drawn w' = drawn (world_of ["1 please"; "0"] []).
Proof.
  apply (chooseDice_shown_index [die_1_to_6; die_6_to_1; die_1_to_6] "You"
           (world_of ["1 please"; "0"] []) 1 die_6_to_1 " please" ["0"]);
    reflexivity.
Defined.

(** Without a line that starts with an index of the options, [chooseDice]
    reads every line and waits. *)
Lemma chooseDice_waits (options : list Dice) (player : string) (w : World) :
  first_accepted (off_the_options options) (stdin w) = None ->
  exists w',
    chooseDice options player w = Pending w'
    /\ stdin w' = [] /\ drawn w' = drawn w.
Proof.
  intros F. unfold chooseDice. rewrite bind_console_log.
  match goal with
  | |- context [bind (fold_right ?f ?z ?l) _ ?w0] =>
      destruct (chooseDice_listing l w0) as [w1 [R1 [A1 [B1 C1]]]]
  end.
  run_with R1. cbn [stdin write_stdout] in A1. rewrite <- A1 in F.
  destruct (do_while_parseInt_waits "Your selection: " _ _ w1 F)
    as [w2 [R2 [A2 [B2 C2]]]].
  run_with R2. exists w2. cbn in C1. repeat split; congruence.
Qed.

(** X2.  [chooseDice] never throws.  It returns exactly when some line to
    come starts with an index of the options: then the result is the
    option at the first such index, the lines up to it are read, and no
    random number is drawn.  Otherwise it reads every line and waits; with
    an empty list of options that is always so. *)
Theorem chooseDice_outcome (options : list Dice) (player : string)
    (w : World) :
  match first_accepted (off_the_options options) (stdin w) with
  | Some (choice, rest) =>
      exists dice w',
        chooseDice options player w = Ret dice w'
        /\ array_get options choice = Some dice
        /\ In dice options
        /\ stdin w' = rest /\ drawn w' = drawn w
  | None =>
      exists w',
        chooseDice options player w = Pending w'
        /\ stdin w' = [] /\ drawn w' = drawn w
  end
  /\ (options = [] ->
      first_accepted (off_the_options options) (stdin w) = None).
Proof.
  split.
  - destruct (first_accepted (off_the_options options) (stdin w))
      as [[choice rest] |] eqn:F.
    + destruct (chooseDice_run options player w _ _ F)
        as [d [w' [R [G [A B]]]]].
      exists d, w'. repeat split; try assumption.
      eapply array_get_In; eassumption.
    + now apply chooseDice_waits.
  - intros ->. induction (stdin w) as [| line more IH]; cbn; [reflexivity |].
    destruct (parseInt line) as [x |]; [| exact IH].
    replace (off_the_options [] x) with true; [exact IH |].
    unfold off_the_options. cbn.
    destruct (x <? 0) eqn:L; [reflexivity |].
    apply Z.ltb_ge in L. symmetry. apply Z.geb_le. lia.
Qed.

Lemma do_while_parseInt_waits_transcript (prompt : string)
    (out_of_range : Z -> bool) (lines : list string) (w : World) :
  first_accepted out_of_range lines = None ->
  do_while_parseInt prompt out_of_range lines w
  = Pending (mkWorld [] (entropy w) (drawn w)
               (stdout w ++ repeat prompt (S (List.length lines)))%list
               (stderr w) (rl_closed w)).
Proof.
  revert w. induction lines as [| line more IH]; intros w; cbn.
  - reflexivity.
  - assert (Again :
      first_accepted out_of_range more = None ->
      do_while_parseInt prompt out_of_range more
        (set_stdin more (write_stdout prompt w))
      = Pending (mkWorld [] (entropy w) (drawn w)
                   (stdout w
                    ++ prompt :: prompt :: repeat prompt (List.length more))%list
                   (stderr w) (rl_closed w))).
    { intros E. rewrite (IH _ E).
      cbn [set_stdin write_stdout stdin entropy drawn stdout stderr
           rl_closed repeat].
      do 2 f_equal. now rewrite <- app_assoc. }
    destruct (parseInt line) as [y |]; [| exact Again].
    destruct (out_of_range y); [exact Again | discriminate].
Qed.

Lemma bind_Pending {A B : Type} (m : IO A) (k : A -> IO B) (w w' : World) :
  m w = Pending w' -> bind m k w = Pending w'.
Proof. intros E. unfold bind. now rewrite E. Qed.

Lemma bind_same {A B : Type} (m m' : IO A) (k : A -> IO B) (w : World) :
  m w = m' w -> bind m k w = bind m' k w.
Proof. intros E. unfold bind. now rewrite E. Qed.

(* ================================================================== *)
(** * Commitment first, reveal last                                    *)
(* ================================================================== *)

Lemma getUserInput_run (prompt line : string) (rest : list string)
    (w : World) :
  stdin w = line :: rest ->
  getUserInput prompt w = Ret line (set_stdin rest (write_stdout prompt w)).
Proof. intros E. unfold getUserInput. now rewrite E. Qed.

Lemma getUserInput_wait (prompt : string) (w : World) :
  stdin w = [] -> getUserInput prompt w = Pending (write_stdout prompt w).
Proof. intros E. unfold getUserInput. now rewrite E. Qed.

Section Transcripts.
Context `{NodeRuntime}.

(** X3.  The exchange of a round of [app.js] between two dice whose faces
    are safe integers, line by line: the HMAC of the house's number under
    the fresh key is written before the user is asked anything; the
    question is asked once per line read; the number and the key are
    written only after the user's number is accepted, and they are the
    ones the HMAC was made from; then come the sum and the two throws.
    Two random numbers are drawn, the key and the house's number. *)
Theorem throws_commit_then_reveal (pd cd : Dice) (w : World) (c : Z)
    (rest : list string) :
  safe_faces pd -> safe_faces cd ->
  first_accepted off_the_die (stdin w) = Some (c, rest) ->
  exists n,
    App.throws (Some pd) (Some cd) w
    = Ret (App.roll pd (App.finalIndex c (house_value 6 w)),
           App.roll cd (App.finalIndex c (house_value 6 w)))
        (mkWorld rest (entropy w) (S (S (drawn w)))
           (stdout w
            ++ commitment_line "5"
                 (generateHMAC (key_at w) (house_value 6 w))
            :: repeat "Add your number modulo 6 (0-5): " (S n)
            ++ [reveal_line (house_value 6 w) (key_at w);
                ("The result is " ++ toString c ++ " + "
                 ++ toString (house_value 6 w) ++ " = "
                 ++ toString (App.finalIndex c (house_value 6 w))
                 ++ " (mod 6).")%string;
                ("Your throw is "
                 ++ show (App.roll pd (App.finalIndex c (house_value 6 w)))
                 ++ ", my throw is "
                 ++ show (App.roll cd (App.finalIndex c (house_value 6 w)))
                 ++ ".")%string])%list
           (stderr w) (rl_closed w))
    /\ List.length (stdin w) = (S n + List.length rest)%nat.
Proof.
  intros _ _ E. unfold App.throws.
  rewrite (bind_Ret _ _ _ _ _ (generateKey_run w)).
  rewrite (bind_Ret _ _ _ _ _
             (getFairRandom_run 6 (key_at w) (advance w) six_in_range)).
  rewrite bind_console_log.
  match goal with
  | |- context [bind _ _ ?w0] =>
      destruct (do_while_parseInt_transcript
                  "Add your number modulo 6 (0-5): "
                  off_the_die (stdin w0) rest c w0 E) as [n [R L]]
  end.
  exists n. split; [| exact L].
  run_with R.
  rewrite !bind_console_log. cbn [method_of value].
  unfold bind at 1. unfold ret at 1. unfold bind at 1. unfold ret at 1.
  rewrite bind_console_log. unfold ret.
  unfold write_stdout, advance, house_value, commitment_line, reveal_line.
  cbn [stdin entropy drawn stdout stderr rl_closed hmac value].
  do 2 f_equal. repeat rewrite <- app_assoc. reflexivity.
Qed.

(** X4.  A round of [app.js] whose user never gives a number from 0 to 5:
    the house has committed, every line is read and refused, the question
    stands once more, and neither the number nor the key is ever written;
    [playRound] does not return, so no score changes. *)
Theorem playRound_waits_unrevealed (this : App.DiceGame)
    (pd cd : option Dice) (w : World) :
  first_accepted off_the_die (stdin w) = None ->
  App.playRound this pd cd w
  = Pending (mkWorld [] (entropy w) (S (S (drawn w)))
               (stdout w
                ++ commitment_line "5"
                     (generateHMAC (key_at w) (house_value 6 w))
                :: repeat "Add your number modulo 6 (0-5): "
                     (S (List.length (stdin w))))%list
               (stderr w) (rl_closed w)).
Proof.
  intros E. unfold App.playRound, App.throws.
  apply bind_Pending.
  rewrite (bind_Ret _ _ _ _ _ (generateKey_run w)).
  rewrite (bind_Ret _ _ _ _ _
             (getFairRandom_run 6 (key_at w) (advance w) six_in_range)).
  rewrite bind_console_log.
  apply bind_Pending.
  match goal with
  | |- do_while_parseInt _ _ _ ?w0 = _ =>
      rewrite (do_while_parseInt_waits_transcript
                 "Add your number modulo 6 (0-5): " off_the_die
                 (stdin w0) w0 E)
  end.
  unfold write_stdout, advance, house_value, commitment_line.
  cbn [stdin entropy drawn stdout stderr rl_closed hmac value].
  do 2 f_equal. now rewrite <- app_assoc.
Qed.

(** X5.  The first move in full.  With a line to read, [determineFirstMove]
    writes the HMAC of the house's bit, asks once, reads that one line, and
    only then writes the bit and the key; the user moves first exactly when
    [parseInt] of the line is the bit.  With no line to read it waits after
    the question, the bit and the key unwritten.  It never throws. *)
Theorem determineFirstMove_outcome (w : World) :
  match stdin w with
  | line :: rest =>
      App.determineFirstMove w
      = Ret (if strict_eq (parseInt line) (house_value 2 w)
             then "user" else "computer")
          (mkWorld rest (entropy w) (S (S (drawn w)))
             (stdout w
              ++ [commitment_line "1"
                    (generateHMAC (key_at w) (house_value 2 w));
                  "Try to guess my selection (0 or 1): ";
                  selection_line (house_value 2 w) (key_at w)])%list
             (stderr w) (rl_closed w))
  | [] =>
      App.determineFirstMove w
      = Pending (mkWorld [] (entropy w) (S (S (drawn w)))
                   (stdout w
                    ++ [commitment_line "1"
                          (generateHMAC (key_at w) (house_value 2 w));
                        "Try to guess my selection (0 or 1): "])%list
                   (stderr w) (rl_closed w))
  end.
Proof.
  destruct (stdin w) as [| line rest] eqn:E;
    unfold App.determineFirstMove;
    rewrite (bind_Ret _ _ _ _ _ (generateKey_run w));
    rewrite (bind_Ret _ _ _ _ _
               (getFairRandom_run 2 (key_at w) (advance w) two_in_range));
    rewrite bind_console_log.
  - erewrite bind_Pending by (apply getUserInput_wait; exact E).
    unfold write_stdout, advance, house_value, commitment_line.
    cbn [stdin entropy drawn stdout stderr rl_closed hmac value].
    do 2 f_equal; [exact E | now rewrite <- app_assoc].
  - erewrite bind_Ret by (apply getUserInput_run; exact E).
    rewrite bind_console_log. unfold ret.
    unfold write_stdout, set_stdin, advance, house_value, commitment_line,
      selection_line.
    cbn [stdin entropy drawn stdout stderr rl_closed hmac value].
    do 2 f_equal. repeat rewrite <- app_assoc. reflexivity.
Qed.

(** The first move of [part_000], whose [getFairRandom] has the retry
    loop, is the first move of [app.js] in every world, once the loop may
    run at all. *)
Lemma Part000_determineFirstMove_same (fuel : nat) (w : World) :
  Part000.determineFirstMove (S fuel) w = App.determineFirstMove w.
Proof.
  unfold Part000.determineFirstMove, App.determineFirstMove.
  rewrite !(bind_Ret _ _ _ _ _ (generateKey_run w)).
  apply bind_same. apply getFairRandom_retry_same.
Qed.

End Transcripts.

Lemma throws_commit_then_reveal_witness :
  exists n,
    @App.throws toy_runtime (Some die_1_to_6) (Some die_6_to_1)
      (world_of ["six"; "2"; "4"] [255; 3])
    = Ret (App.roll die_1_to_6
             (App.finalIndex 2
                (house_value 6 (world_of ["six"; "2"; "4"] [255; 3]))),
           App.roll die_6_to_1
             (App.finalIndex 2
                (house_value 6 (world_of ["six"; "2"; "4"] [255; 3]))))
        (mkWorld ["4"] (entropy (world_of ["six"; "2"; "4"] [255; 3]))
           (S (S (drawn (world_of ["six"; "2"; "4"] [255; 3]))))
           (stdout (world_of ["six"; "2"; "4"] [255; 3])
            ++ commitment_line "5"
                 (@generateHMAC toy_runtime
                    (key_at (world_of ["six"; "2"; "4"] [255; 3]))
                    (house_value 6 (world_of ["six"; "2"; "4"] [255; 3])))
            :: repeat "Add your number modulo 6 (0-5): " (S n)
            ++ [reveal_line
                  (house_value 6 (world_of ["six"; "2"; "4"] [255; 3]))
                  (key_at (world_of ["six"; "2"; "4"] [255; 3]));
                ("The result is " ++ toString 2 ++ " + "
                 ++ toString
                      (house_value 6 (world_of ["six"; "2"; "4"] [255; 3]))
                 ++ " = "
                 ++ toString
                      (App.finalIndex 2
                         (house_value 6
                            (world_of ["six"; "2"; "4"] [255; 3])))
                 ++ " (mod 6).")%string;
                ("Your throw is "
                 ++ show (App.roll die_1_to_6
                            (App.finalIndex 2
                               (house_value 6
                                  (world_of ["six"; "2"; "4"] [255; 3]))))
                 ++ ", my throw is "
                 ++ show (App.roll die_6_to_1
                            (App.finalIndex 2
                               (house_value 6
                                  (world_of ["six"; "2"; "4"] [255; 3]))))
                 ++ ".")%string])%list
           (stderr (world_of ["six"; "2"; "4"] [255; 3]))
           (rl_closed (world_of ["six"; "2"; "4"] [255; 3])))
    /\ List.length (stdin (world_of ["six"; "2"; "4"] [255; 3]))
       = (S n + List.length ["4"])%nat.
Proof.
  apply (@throws_commit_then_reveal toy_runtime die_1_to_6 die_6_to_1
           (world_of ["six"; "2"; "4"] [255; 3]) 2 ["4"]).
  - repeat constructor; unfold safe_integer; cbn; lia.
  - repeat constructor; unfold safe_integer; cbn; lia.
  - reflexivity.
Defined.

Lemma playRound_waits_unrevealed_witness :
  @App.playRound toy_runtime (App.mkDiceGame [] (App.mkScores 0 0))
    (Some die_1_to_6) (Some die_6_to_1) (world_of ["six"; "-1"] [255; 3])
  = Pending (mkWorld [] (entropy (world_of ["six"; "-1"] [255; 3])) 2
               [commitment_line "5"
                  (@generateHMAC toy_runtime
                     (key_at (world_of ["six"; "-1"] [255; 3])) 3);
                "Add your number modulo 6 (0-5): ";
                "Add your number modulo 6 (0-5): ";
                "Add your number modulo 6 (0-5): "]
               [] false).
Proof.
  apply (@playRound_waits_unrevealed toy_runtime
           (App.mkDiceGame [] (App.mkScores 0 0))
           (Some die_1_to_6) (Some die_6_to_1)
           (world_of ["six"; "-1"] [255; 3])).
  reflexivity.
Defined.

(* ================================================================== *)
(** * The throws of [part_000]                                         *)
(* ================================================================== *)

Lemma Math_floor_random_times_run (n : Z) (w : World) :
  Math_floor_random_times n w
  = Ret (if n <=? 0 then 0 else entropy w (drawn w) mod n) (advance w).
Proof. reflexivity. Qed.

Lemma Part000_roll_run (d : Dice) (w : World) :
  Part000.roll d w
  = Ret (array_get (sides d)
           (if Z.of_nat (List.length (sides d)) <=? 0 then 0
            else entropy w (drawn w) mod Z.of_nat (List.length (sides d))))
        (advance w).
Proof. reflexivity. Qed.

(** X6.  [roll()] of [part_000], on a die with at least one side, makes one
    request to the source of randomness and returns a side of the die,
    never [undefined]; and each side of the die is returned for some answer
    of the source. *)
Theorem Part000_roll_a_side (d : Dice) (w : World) :
  sides d <> [] ->
  (exists face,
      Part000.roll d w = Ret (Some face) (advance w) /\ In face (sides d))
  /\ (forall i face,
         nth_error (sides d) i = Some face ->
         Part000.roll d
           (mkWorld (stdin w) (fun _ => Z.of_nat i) (drawn w) (stdout w)
                    (stderr w) (rl_closed w))
         = Ret (Some face)
             (advance (mkWorld (stdin w) (fun _ => Z.of_nat i) (drawn w)
                               (stdout w) (stderr w) (rl_closed w)))).
Proof.
  intros N.
  assert (L : 0 < Z.of_nat (List.length (sides d)))
    by (destruct (sides d); [contradiction | cbn [List.length]; lia]).
  split.
  - rewrite Part000_roll_run.
    destruct (Z.of_nat (List.length (sides d)) <=? 0) eqn:E;
      [apply Z.leb_le in E; lia |].
    destruct (array_get_in_range (sides d)
                (entropy w (drawn w) mod Z.of_nat (List.length (sides d))))
      as [face [G I]]; [apply Z.mod_pos_bound; exact L |].
    exists face. now rewrite G.
  - intros i face E. rewrite Part000_roll_run. cbn [entropy drawn].
    destruct (Z.of_nat (List.length (sides d)) <=? 0) eqn:Z;
      [apply Z.leb_le in Z; lia |].
    assert (I : (i < List.length (sides d))%nat)
      by (apply nth_error_Some; congruence).
    rewrite Z.mod_small by lia.
    now rewrite array_get_of_nat, E.
Qed.

Lemma Part000_roll_a_side_witness :
  (exists face,
      Part000.roll die_6_to_1 (world_of [] [45])
      = Ret (Some face) (advance (world_of [] [45]))
      /\ In face (sides die_6_to_1))
  /\ (forall i face,
         nth_error (sides die_6_to_1) i = Some face ->
         Part000.roll die_6_to_1
           (mkWorld (stdin (world_of [] [45])) (fun _ => Z.of_nat i)
                    (drawn (world_of [] [45])) (stdout (world_of [] [45]))
                    (stderr (world_of [] [45]))
                    (rl_closed (world_of [] [45])))
         = Ret (Some face)
             (advance
                (mkWorld (stdin (world_of [] [45])) (fun _ => Z.of_nat i)
                         (drawn (world_of [] [45]))
                         (stdout (world_of [] [45]))
                         (stderr (world_of [] [45]))
                         (rl_closed (world_of [] [45]))))).
Proof.
  apply (Part000_roll_a_side die_6_to_1 (world_of [] [45])).
  discriminate.
Defined.

Section Part000Rounds.
Context `{NodeRuntime}.

(** The first part of the round of [part_000]: each die is thrown at an
    index of its own, drawn after the exchange. *)
Lemma Part000_throws_run (fuel : nat) (pd cd : Dice) (w : World) (c : Z)
    (rest : list string) :
  first_accepted off_the_die (stdin w) = Some (c, rest) ->
  exists w',
    Part000.throws (S fuel) (Some pd) (Some cd) w
    = Ret (array_get (sides pd)
             (if Z.of_nat (List.length (sides pd)) <=? 0 then 0
              else entropy w (2 + drawn w)
                   mod Z.of_nat (List.length (sides pd))),
           array_get (sides cd)
             (if Z.of_nat (List.length (sides cd)) <=? 0 then 0
              else entropy w (3 + drawn w)
                   mod Z.of_nat (List.length (sides cd)))) w'
    /\ stdin w' = rest
    /\ drawn w' = (4 + drawn w)%nat.
Proof.
  intros E. unfold Part000.throws.
  rewrite (bind_Ret _ _ _ _ _ (generateKey_run w)).
  erewrite bind_Ret
    by (rewrite getFairRandom_retry_same;
        apply (getFairRandom_run 6 (key_at w) (advance w) six_in_range)).
  rewrite bind_console_log.
  match goal with
  | |- context [bind _ _ ?w0] =>
      destruct (do_while_parseInt_transcript
                  "Add your number modulo 6 (0-5): "
                  off_the_die (stdin w0) rest c w0 E) as [n [R _]]
  end.
  run_with R.
  rewrite !bind_console_log. cbn [method_of].
  erewrite bind_Ret by apply Part000_roll_run.
  erewrite bind_Ret by apply Part000_roll_run.
  rewrite bind_console_log. unfold ret.
  eexists. split; [reflexivity |]. split; reflexivity.
Qed.

(** X7.  In [part_000] what the user types as the number of the round has
    no part in the throws: two rounds with the same dice and the same
    source of randomness, in which the user gives any two accepted numbers,
    end with the same two throws. *)
Theorem Part000_throws_ignore_the_number (fuel : nat) (pd cd : Dice)
    (w1 w2 : World) (c1 c2 : Z) (rest1 rest2 : list string) :
  entropy w1 = entropy w2 -> drawn w1 = drawn w2 ->
  first_accepted off_the_die (stdin w1) = Some (c1, rest1) ->
  first_accepted off_the_die (stdin w2) = Some (c2, rest2) ->
  exists faces w1' w2',
    Part000.throws (S fuel) (Some pd) (Some cd) w1 = Ret faces w1'
    /\ Part000.throws (S fuel) (Some pd) (Some cd) w2 = Ret faces w2'.
Proof.
  intros Ee Ed E1 E2.
  destruct (Part000_throws_run fuel pd cd w1 c1 rest1 E1) as [w1' [R1 _]].
  destruct (Part000_throws_run fuel pd cd w2 c2 rest2 E2) as [w2' [R2 _]].
  rewrite Ee, Ed in R1.
  eexists. exists w1', w2'. split; [exact R1 | exact R2].
Qed.

End Part000Rounds.

Lemma Part000_throws_ignore_the_number_witness :
  exists faces w1' w2',
    @Part000.throws toy_runtime 1 (Some die_1_to_6) (Some die_6_to_1)
      (world_of ["0"] [9; 3; 4; 4]) = Ret faces w1'
    /\ @Part000.throws toy_runtime 1 (Some die_1_to_6) (Some die_6_to_1)
         (world_of ["x"; "5"] [9; 3; 4; 4]) = Ret faces w2'.
Proof.
  apply (@Part000_throws_ignore_the_number toy_runtime 0
           die_1_to_6 die_6_to_1
           (world_of ["0"] [9; 3; 4; 4]) (world_of ["x"; "5"] [9; 3; 4; 4])
           0 5 [] []); reflexivity.
Defined.

(* ================================================================== *)
(** * What the constructor builds and what it says                     *)
(* ================================================================== *)

Section Built.
Context `{NodeRuntime}.

Lemma new_Dice_each_nth (args : list string) (a : nat) (dice : list Dice) :
  new_Dice_each a args = Ok dice ->
  List.length dice = List.length args
  /\ forall i arg,
       nth_error args i = Some arg ->
       exists d,
         nth_error dice i = Some d
         /\ addr d = (a + i)%nat
         /\ map Int (sides d) = map Number (split "," arg).
Proof.
  revert a dice. induction args as [| arg0 rest IH]; intros a dice; cbn.
  - intros [= <-]. split; [reflexivity |]. intros [| i] arg; discriminate.
  - destruct (Dice_constructor a (map Number (split "," arg0)))
      as [d0 | e] eqn:D; [| discriminate].
    destruct (new_Dice_each (S a) rest) as [others | e] eqn:R;
      [| discriminate].
    intros [= <-].
    destruct (Dice_constructor_Ok _ _ _ D) as [A [M _]].
    destruct (IH (S a) others R) as [L N].
    split; [cbn; now rewrite L |].
    intros [| i] arg E; cbn in E.
    + injection E as <-. exists d0. cbn. repeat split; [lia | exact M].
    + destruct (N i arg E) as [d [G [Ad Md]]].
      exists d. cbn. repeat split; [exact G | lia | exact Md].
Qed.

(** X8.  When [new DiceGame(args)] returns, the game has one die per
    argument, in the order of the arguments: the die at index [i] is the
    [i]-th object made, and its sides are exactly the numbers that [Number]
    makes of the pieces of the [i]-th argument between commas, 6 of them;
    both scores are 0. *)
Theorem DiceGame_constructor_builds (args : list string)
    (this : App.DiceGame) :
  App.DiceGame_constructor args = Ok this ->
  List.length (App.diceOptions this) = List.length args
  /\ (3 <= List.length args)%nat
  /\ App.scores this = App.mkScores 0 0
  /\ forall i arg,
       nth_error args i = Some arg ->
       exists d,
         nth_error (App.diceOptions this) i = Some d
         /\ addr d = i
         /\ map Int (sides d) = map Number (split "," arg)
         /\ List.length (sides d) = 6%nat.
Proof.
  unfold App.DiceGame_constructor.
  destruct (Nat.ltb_spec (List.length args) 3) as [L | L]; [discriminate |].
  destruct (new_Dice_each 0 args) as [dice | e] eqn:E; [| discriminate].
  intros [= <-]. cbn [App.diceOptions App.scores].
  destruct (new_Dice_each_nth _ _ _ E) as [Len N].
  destruct (new_Dice_each_Ok _ _ _ E) as [_ F].
  repeat split; try assumption.
  intros i arg Ea. destruct (N i arg Ea) as [d [G [A M]]].
  exists d. repeat split; try assumption.
  rewrite Forall_forall in F.
  apply (F d). eapply nth_error_In; eassumption.
Qed.

(** X9.  What the constructor says when it throws: with fewer than 3
    arguments the message is the one about the number of configurations,
    whatever the arguments hold; with 3 or more it is the one about the
    sides of a die. *)
Theorem DiceGame_constructor_messages (args : list string) (e : string) :
  App.DiceGame_constructor args = Error e ->
  ((List.length args < 3)%nat ->
   e = "At least 3 dice configurations must be provided.")
  /\ ((3 <= List.length args)%nat ->
      e = "Each dice must have exactly 6 integer sides greater than 0.").
Proof.
  unfold App.DiceGame_constructor.
  destruct (Nat.ltb_spec (List.length args) 3) as [L | L].
  - intros [= <-]. split; [reflexivity | lia].
  - destruct (new_Dice_each 0 args) as [dice | e'] eqn:E; [discriminate |].
    intros [= <-]. split; [lia |]. intros _.
    clear L. revert E. generalize 0%nat.
    induction args as [| arg rest IH]; intros a; cbn; [discriminate |].
    destruct (Dice_constructor a (map Number (split "," arg)))
      as [d | e0] eqn:D.
    + destruct (new_Dice_each (S a) rest) as [others | e1] eqn:R;
        [discriminate |].
      intros [= <-]. now apply (IH (S a)).
    + intros [= <-]. eapply Dice_constructor_Error_message; eassumption.
Qed.

End Built.

Lemma DiceGame_constructor_builds_witness :
  List.length
    (App.diceOptions
       (App.mkDiceGame [mkDice 0 [2; 2; 4; 4; 9; 9];
                        mkDice 1 [1; 1; 1; 4; 4; 4];
                        mkDice 2 [3; 3; 5; 5; 7; 7]] (App.mkScores 0 0)))
  = List.length ["2,2,4,4,9,9"; "1,1,1,4,4,4"; "3,3,5,5,7,7"]
  /\ (3 <= List.length ["2,2,4,4,9,9"; "1,1,1,4,4,4"; "3,3,5,5,7,7"])%nat
  /\ App.scores
       (App.mkDiceGame [mkDice 0 [2; 2; 4; 4; 9; 9];
                        mkDice 1 [1; 1; 1; 4; 4; 4];
                        mkDice 2 [3; 3; 5; 5; 7; 7]] (App.mkScores 0 0))
     = App.mkScores 0 0
  /\ forall i arg,
       nth_error ["2,2,4,4,9,9"; "1,1,1,4,4,4"; "3,3,5,5,7,7"] i = Some arg ->
       exists d,
         nth_error
           (App.diceOptions
              (App.mkDiceGame [mkDice 0 [2; 2; 4; 4; 9; 9];
                               mkDice 1 [1; 1; 1; 4; 4; 4];
                               mkDice 2 [3; 3; 5; 5; 7; 7]]
                 (App.mkScores 0 0))) i = Some d
         /\ addr d = i
         /\ map Int (sides d) = map (@Number toy_runtime) (split "," arg)
         /\ List.length (sides d) = 6%nat.
Proof.
  apply (@DiceGame_constructor_builds toy_runtime
           ["2,2,4,4,9,9"; "1,1,1,4,4,4"; "3,3,5,5,7,7"]).
  reflexivity.
Defined.

Lemma DiceGame_constructor_messages_witness :
  ((List.length ["1,2,3,4,5,6"; "1,2,3"] < 3)%nat ->
   "At least 3 dice configurations must be provided."
   = "At least 3 dice configurations must be provided.")
  /\ ((3 <= List.length ["1,2,3,4,5,6"; "1,2,3"])%nat ->
      "At least 3 dice configurations must be provided."
      = "Each dice must have exactly 6 integer sides greater than 0.").
Proof.
  apply (@DiceGame_constructor_messages toy_runtime
           ["1,2,3,4,5,6"; "1,2,3"]).
  reflexivity.
Defined.

(* ================================================================== *)
(** * A whole game                                                     *)
(* ================================================================== *)

Lemma settled_bind {A B : Type} (m : IO A) (k : A -> IO B) (w : World) :
  settled (m w) ->
  (forall a w1, m w = Ret a w1 -> settled (k a w1)) ->
  settled (bind m k w).
Proof.
  unfold bind. destruct (m w) as [a w1 | e w1 | w1 | w1]; cbn; auto.
Qed.

Lemma settled_Ret {A : Type} (o : Outcome A) (a : A) (w : World) :
  o = Ret a w -> settled o.
Proof. intros ->. exact I. Qed.

Lemma settled_Pending {A : Type} (o : Outcome A) (w : World) :
  o = Pending w -> settled o.
Proof. intros ->. exact I. Qed.

Section WholeGame.
Context `{NodeRuntime}.

Lemma determineFirstMove_waits (w : World) :
  stdin w = [] -> exists w', App.determineFirstMove w = Pending w'.
Proof.
  intros E. unfold App.determineFirstMove.
  rewrite (bind_Ret _ _ _ _ _ (generateKey_run w)).
  rewrite (bind_Ret _ _ _ _ _
             (getFairRandom_run 2 (key_at w) (advance w) two_in_range)).
  rewrite bind_console_log.
  erewrite bind_Pending by (apply getUserInput_wait; exact E).
  now eexists.
Qed.

Lemma determineFirstMove_Ret (w w' : World) (who : string) :
  App.determineFirstMove w = Ret who w' ->
  drawn w' = S (S (drawn w)) /\ exists line, stdin w = line :: stdin w'.
Proof.
  intros R. destruct (stdin w) as [| line rest] eqn:E.
  - destruct (determineFirstMove_waits w E) as [w1 P].
    rewrite R in P. discriminate.
  - destruct (determineFirstMove_run w line rest E) as [w1 [R1 [A D]]].
    rewrite R in R1. injection R1 as _ ->.
    split; [exact D | exists line; now rewrite A].
Qed.

Lemma determineFirstMove_settled (w : World) :
  settled (App.determineFirstMove w).
Proof.
  destruct (stdin w) as [| line rest] eqn:E.
  - destruct (determineFirstMove_waits w E) as [w1 P].
    eapply settled_Pending; eassumption.
  - destruct (determineFirstMove_run w line rest E) as [w1 [R1 _]].
    eapply settled_Ret; eassumption.
Qed.

Lemma chooseDice_settled (options : list Dice) (player : string)
    (w : World) :
  settled (chooseDice options player w).
Proof.
  destruct (first_accepted (off_the_options options) (stdin w))
    as [[choice rest] |] eqn:F.
  - destruct (chooseDice_run options player w _ _ F) as [d [w' [R _]]].
    eapply settled_Ret; eassumption.
  - destruct (chooseDice_waits options player w F) as [w' [P _]].
    eapply settled_Pending; eassumption.
Qed.

Lemma chooseDice_Ret_drawn (options : list Dice) (player : string)
    (w w' : World) (d : Dice) :
  chooseDice options player w = Ret d w' -> drawn w' = drawn w.
Proof.
  intros R.
  destruct (first_accepted (off_the_options options) (stdin w))
    as [[choice rest] |] eqn:F.
  - destruct (chooseDice_run options player w _ _ F)
      as [d1 [w1 [R1 [_ [_ D]]]]].
    rewrite R in R1. now injection R1 as _ ->.
  - destruct (chooseDice_waits options player w F) as [w1 [P _]].
    rewrite R in P. discriminate.
Qed.

(** In a playable game the choice of the dice gives two dice. *)
Lemma pick_dice_Ret (this : App.DiceGame) (firstPlayer : string)
    (w w' : World) (dice : option Dice * option Dice) :
  playable (App.diceOptions this) ->
  App.pick_dice this firstPlayer w = Ret dice w' ->
  drawn w' = drawn w
  /\ exists a b, dice = (Some a, Some b).
Proof.
  intros [N L] P. unfold App.pick_dice in P.
  destruct (String.eqb firstPlayer "user");
    apply bind_Ret_inv in P; destruct P as [chosen [w1 [Ch P]]];
    pose proof (chooseDice_Ret_drawn _ _ _ _ _ Ch) as D;
    apply chooseDice_Ret in Ch; destruct Ch as [choice [_ [_ Hin]]];
    destruct (find_other (App.diceOptions this) chosen N L Hin)
      as [other [before [after [F _]]]];
    unfold ret in P; rewrite F in P; injection P as <- <-;
    (split; [exact D | do 2 eexists; reflexivity]).
Qed.

Lemma pick_dice_settled (this : App.DiceGame) (firstPlayer : string)
    (w : World) :
  settled (App.pick_dice this firstPlayer w).
Proof.
  unfold App.pick_dice.
  destruct (String.eqb firstPlayer "user");
    (apply settled_bind; [apply chooseDice_settled | intros; exact I]).
Qed.

Lemma throws_waits (pd cd : option Dice) (w : World) :
  first_accepted off_the_die (stdin w) = None ->
  exists w', App.throws pd cd w = Pending w'.
Proof.
  intros E. unfold App.throws.
  rewrite (bind_Ret _ _ _ _ _ (generateKey_run w)).
  rewrite (bind_Ret _ _ _ _ _
             (getFairRandom_run 6 (key_at w) (advance w) six_in_range)).
  rewrite bind_console_log.
  match goal with
  | |- context [bind _ _ ?w0] =>
      destruct (do_while_parseInt_waits "Add your number modulo 6 (0-5): "
                  off_the_die (stdin w0) w0 E) as [w1 [R _]]
  end.
  run_with R. now eexists.
Qed.

Lemma settle_total (this : App.DiceGame) (u k : option Z) (w : World) :
  exists this' w',
    App.settle this u k w = Ret this' w'
    /\ drawn w' = drawn w
    /\ App.diceOptions this' = App.diceOptions this
    /\ gained_at_most 1 (App.scores this) (App.scores this').
Proof.
  unfold App.settle, gained_at_most.
  destruct (js_gt u k); [| destruct (js_lt u k)];
    do 2 eexists; (split; [reflexivity |]); cbn; repeat split; lia.
Qed.

Lemma playRound_settled (this : App.DiceGame) (pd cd : Dice) (w : World) :
  settled (App.playRound this (Some pd) (Some cd) w).
Proof.
  unfold App.playRound. apply settled_bind.
  - destruct (first_accepted off_the_die (stdin w)) as [[c rest] |] eqn:F.
    + destruct (throws_run pd cd w c rest F) as [w' [R _]].
      eapply settled_Ret; eassumption.
    + destruct (throws_waits (Some pd) (Some cd) w F) as [w' P].
      eapply settled_Pending; eassumption.
  - intros rolls w1 _.
    destruct (settle_total this (fst rolls) (snd rolls) w1)
      as [this' [w' [R _]]].
    eapply settled_Ret; eassumption.
Qed.

Lemma playRound_Ret (this this' : App.DiceGame) (pd cd : Dice)
    (w w' : World) :
  App.playRound this (Some pd) (Some cd) w = Ret this' w' ->
  drawn w' = S (S (drawn w))
  /\ App.diceOptions this' = App.diceOptions this
  /\ gained_at_most 1 (App.scores this) (App.scores this').
Proof.
  unfold App.playRound. intros R.
  apply bind_Ret_inv in R. destruct R as [rolls [w1 [T St]]].
  assert (D1 : drawn w1 = S (S (drawn w))).
  { destruct (first_accepted off_the_die (stdin w)) as [[c rest] |] eqn:F.
    - destruct (throws_run pd cd w c rest F) as [w2 [R2 [_ D]]].
      rewrite T in R2. now injection R2 as _ ->.
    - destruct (throws_waits (Some pd) (Some cd) w F) as [w2 P].
      rewrite T in P. discriminate. }
  destruct (settle_total this (fst rolls) (snd rolls) w1)
    as [this2 [w2 [R2 [D2 [O G]]]]].
  rewrite St in R2. injection R2 as <- <-.
  split; [congruence |]. split; assumption.
Qed.

(** One turn of the loop of [playGame] in a playable game. *)
Lemma round_Ret (this this' : App.DiceGame) (i : Z) (w w' : World) :
  playable (App.diceOptions this) ->
  App.round this i w = Ret this' w' ->
  drawn w' = (4 + drawn w)%nat
  /\ App.diceOptions this' = App.diceOptions this
  /\ gained_at_most 1 (App.scores this) (App.scores this').
Proof.
  intros P R. unfold App.round in R. rewrite bind_console_log in R.
  apply bind_Ret_inv in R. destruct R as [who [w1 [F R]]].
  apply determineFirstMove_Ret in F. destruct F as [D1 _].
  apply bind_Ret_inv in R. destruct R as [dice [w2 [K R]]].
  destruct (pick_dice_Ret this who w1 w2 dice P K) as [D2 [a [b ->]]].
  cbn [fst snd] in R. apply playRound_Ret in R.
  destruct R as [D3 [O G]].
  cbn [drawn write_stdout] in D1.
  split; [lia |]. split; assumption.
Qed.

Lemma round_settled (this : App.DiceGame) (i : Z) (w : World) :
  playable (App.diceOptions this) -> settled (App.round this i w).
Proof.
  intros P. unfold App.round. rewrite bind_console_log.
  apply settled_bind; [apply determineFirstMove_settled |].
  intros who w1 _.
  apply settled_bind; [apply pick_dice_settled |].
  intros dice w2 K.
  destruct (pick_dice_Ret this who w1 w2 dice P K) as [_ [a [b ->]]].
  apply playRound_settled.
Qed.

Lemma gained_at_most_refl (s : App.Scores) : gained_at_most 0 s s.
Proof. unfold gained_at_most. lia. Qed.

Lemma gained_at_most_trans (n m : Z) (s t u : App.Scores) :
  gained_at_most n s t -> gained_at_most m t u ->
  gained_at_most (n + m) s u.
Proof. unfold gained_at_most. lia. Qed.

Lemma rounds_from_Ret (n : nat) (i : Z) (this this' : App.DiceGame)
    (w w' : World) :
  playable (App.diceOptions this) ->
  App.rounds_from n i this w = Ret this' w' ->
  drawn w' = (4 * n + drawn w)%nat
  /\ App.diceOptions this' = App.diceOptions this
  /\ gained_at_most (Z.of_nat n) (App.scores this) (App.scores this').
Proof.
  revert i this w. induction n as [| n IH]; intros i this w P R.
  - cbn in R. injection R as <- <-.
    split; [reflexivity |]. split; [reflexivity |].
    apply gained_at_most_refl.
  - cbn [App.rounds_from] in R.
    apply bind_Ret_inv in R. destruct R as [this1 [w1 [R1 R]]].
    destruct (round_Ret this this1 i w w1 P R1) as [D1 [O1 G1]].
    rewrite <- O1 in P.
    destruct (IH (i + 1) this1 w1 P R) as [D2 [O2 G2]].
    split; [lia |]. split; [congruence |].
    replace (Z.of_nat (S n)) with (1 + Z.of_nat n) by lia.
    eapply gained_at_most_trans; eassumption.
Qed.

Lemma rounds_from_settled (n : nat) (i : Z) (this : App.DiceGame)
    (w : World) :
  playable (App.diceOptions this) ->
  settled (App.rounds_from n i this w).
Proof.
  revert i this w. induction n as [| n IH]; intros i this w P.
  - exact I.
  - cbn [App.rounds_from]. apply settled_bind; [now apply round_settled |].
    intros this1 w1 R1.
    destruct (round_Ret this this1 i w w1 P R1) as [_ [O1 _]].
    apply IH. now rewrite O1.
Qed.

(** X10.  The accounts of a game of [app.js] that ends, played on at least
    two distinct dice: with [n] the number of rounds that the first line
    asks for (none when it is no number or not positive), the options are
    unchanged, no score went down, the two scores together went up by at
    most [n], [4 * n] random numbers were drawn, two keys and two numbers
    per round, and the interface is closed. *)
Theorem playGame_accounts (this this' : App.DiceGame) (w w' : World)
    (answer : string) (rest : list string) :
  playable (App.diceOptions this) ->
  stdin w = answer :: rest ->
  App.playGame this w = Ret this' w' ->
  App.diceOptions this' = App.diceOptions this
  /\ App.user (App.scores this) <= App.user (App.scores this')
  /\ App.computer (App.scores this) <= App.computer (App.scores this')
  /\ (App.user (App.scores this') - App.user (App.scores this))
     + (App.computer (App.scores this') - App.computer (App.scores this))
     <= Z.of_nat (iterations (parseInt answer))
  /\ drawn w' = (4 * iterations (parseInt answer) + drawn w)%nat
  /\ rl_closed w' = true.
Proof.
  intros P E R. unfold App.playGame in R.
  rewrite bind_console_log in R.
  erewrite bind_Ret in R
    by (apply getUserInput_run; cbn [stdin write_stdout]; exact E).
  apply bind_Ret_inv in R. destruct R as [final [w2 [L R]]].
  apply rounds_from_Ret in L; [| exact P].
  destruct L as [D [O [G1 [G2 G3]]]].
  rewrite !bind_console_log in R. unfold bind, rl_close, ret in R.
  injection R as <- <-. cbn in D |- *.
  repeat split; assumption.
Qed.

(** X11.  The program of [app.js] never ends on an exception and no promise
    of it is rejected: whatever the arguments, the lines typed and the
    random numbers, [main] either returns, with the error message of the
    constructor or after the last round, or waits for a line of input. *)
Theorem main_never_throws (args : list string) (w : World) :
  settled (App.main args w).
Proof.
  unfold App.main.
  destruct (App.DiceGame_constructor args) as [game | e] eqn:C;
    [| exact I].
  destruct (DiceGame_constructor_Ok args game C) as [N [L _]].
  assert (P : playable (App.diceOptions game)) by (split; [exact N | lia]).
  apply settled_bind; [| intros; exact I].
  unfold App.playGame. rewrite bind_console_log.
  apply settled_bind.
  - unfold getUserInput. destruct (stdin _); exact I.
  - intros answer w1 _. apply settled_bind.
    + now apply rounds_from_settled.
    + intros final w2 _. exact I.
Qed.

End WholeGame.

Lemma playGame_accounts_witness :
  exists (this' : App.DiceGame) (w' : World),
    @App.playGame toy_runtime
      (App.mkDiceGame [die_1_to_6; die_6_to_1] (App.mkScores 0 0))
      (world_of ["2"; "0"; "0"; "2"; "1"; "1"; "3"] [0; 0; 0; 3; 0; 0; 0; 1])
    = Ret this' w'
    /\ App.diceOptions this' = [die_1_to_6; die_6_to_1]
    /\ 0 <= App.user (App.scores this')
    /\ 0 <= App.computer (App.scores this')
    /\ (App.user (App.scores this') - 0)
       + (App.computer (App.scores this') - 0)
       <= Z.of_nat (iterations (parseInt "2"))
    /\ drawn w' = (4 * iterations (parseInt "2") + 0)%nat
    /\ rl_closed w' = true.
Proof.
  do 2 eexists. split; [vm_compute; reflexivity |].
  eapply (@playGame_accounts toy_runtime
            (App.mkDiceGame [die_1_to_6; die_6_to_1] (App.mkScores 0 0))
            _ (world_of ["2"; "0"; "0"; "2"; "1"; "1"; "3"]
                 [0; 0; 0; 3; 0; 0; 0; 1]) _ "2"
            ["0"; "0"; "2"; "1"; "1"; "3"]).
  - split; [| cbn; lia].
    cbn. repeat constructor; cbn; intuition discriminate.
  - reflexivity.
  - vm_compute. reflexivity.
Defined.

(* ================================================================== *)
(** * Rounds that run, games that need none                            *)
(* ================================================================== *)

Section Progress.
Context `{NodeRuntime}.

(** X12.  A round of [app.js] takes the number at the start of the line:
    when the user types a number from 0 to 5 as a decimal numeral, followed
    or not by a text that starts with no digit and, after the number 0,
    with no [x] or [X], that number is the user's part of the index at
    which both dice are thrown, and one line is read. *)
Theorem throws_reads_leading_number (pd cd : Dice) (w : World) (c : Z)
    (tail : string) (rest : list string) :
  0 <= c <= 5 ->
  follows_numeral c tail = true ->
  stdin w = (toString c ++ tail)%string :: rest ->
  exists w',
    App.throws (Some pd) (Some cd) w
    = Ret (App.roll pd (App.finalIndex c (house_value 6 w)),
           App.roll cd (App.finalIndex c (house_value 6 w))) w'
    /\ stdin w' = rest.
Proof.
  intros C T E.
  assert (F : first_accepted off_the_die (stdin w) = Some (c, rest)).
  { rewrite E. apply first_accepted_head.
    - now apply parseInt_toString.
    - now apply off_the_die_false. }
  destruct (throws_run pd cd w c rest F) as [w' [R [A _]]].
  now exists w'.
Qed.

(** X13.  One turn of the loop of [playGame] runs to its end on three
    answers: any line at all as the guess, then a line that starts with an
    index of the options, then a line that starts with a number from 0 to
    5, each after any number of refused lines.  It reads exactly these
    lines, draws 4 random numbers, leaves the options as they are and
    gives at most one point. *)
Theorem round_runs (this : App.DiceGame) (i : Z) (w : World)
    (guess : string) (lines lines' rest : list string) (choice c : Z) :
  playable (App.diceOptions this) ->
  stdin w = guess :: lines ->
  first_accepted (off_the_options (App.diceOptions this)) lines
  = Some (choice, lines') ->
  first_accepted off_the_die lines' = Some (c, rest) ->
  exists this' w',
    App.round this i w = Ret this' w'
    /\ stdin w' = rest
    /\ drawn w' = (4 + drawn w)%nat
    /\ App.diceOptions this' = App.diceOptions this
    /\ gained_at_most 1 (App.scores this) (App.scores this').
Proof.
  intros P E F1 F2. unfold App.round. rewrite bind_console_log.
  destruct (determineFirstMove_run
              (write_stdout (LF ++ "--- Round " ++ toString (i + 1) ++ " ---")
                 w) guess lines E) as [w1 [R1 [A1 D1]]].
  run_with R1. cbv beta iota. rewrite <- A1 in F1.
  match goal with
  | |- context [App.pick_dice this ?who] =>
      destruct (pick_dice_run this who w1 choice lines' F1)
        as [dice [w2 [R2 [A2 D2]]]];
      destruct (pick_dice_Ret this who w1 w2 dice P R2) as [_ [a [b ->]]]
  end.
  run_with R2. cbv beta iota.
  cbn [fst snd]. rewrite <- A2 in F2.
  destruct (throws_run a b w2 c rest F2) as [w3 [R3 [A3 D3]]].
  unfold App.playRound. run_with R3.
  destruct (settle_total this
              (fst (App.roll a (App.finalIndex c (house_value 6 w2)),
                    App.roll b (App.finalIndex c (house_value 6 w2))))
              (snd (App.roll a (App.finalIndex c (house_value 6 w2)),
                    App.roll b (App.finalIndex c (house_value 6 w2)))) w3)
    as [this' [w4 [R4 [D4 [O G]]]]].
  exists this', w4. split; [exact R4 |].
  assert (A4 : stdin w4 = stdin w3).
  { unfold App.settle in R4.
    destruct (js_gt _ _); [| destruct (js_lt _ _)];
      injection R4 as _ <-; reflexivity. }
  cbn [drawn write_stdout] in D1.
  split; [congruence |]. split; [lia |]. split; assumption.
Qed.

(** X14.  A first line that [parseInt] reads as no number, as 0 or as a
    negative number asks for no round: [playGame] reads that line only,
    draws no random number, leaves the game as it is, prints the scores
    and the closing line, and closes the interface. *)
Theorem playGame_without_rounds (this : App.DiceGame) (w : World)
    (answer : string) (rest : list string) :
  stdin w = answer :: rest ->
  match parseInt answer with Some n => n <= 0 | None => True end ->
  App.playGame this w
  = Ret this
      (mkWorld rest (entropy w) (drawn w)
         (stdout w
          ++ ["Starting Non-Transitive Dice Game...";
              "Enter the number of rounds: ";
              ("Final Scores - You: " ++ toString (App.user (App.scores this))
               ++ ", Computer: "
               ++ toString (App.computer (App.scores this)))%string;
              App.final_message (App.scores this)])%list
         (stderr w) true).
Proof.
  intros E N.
  assert (Z : iterations (parseInt answer) = O).
  { destruct (parseInt answer) as [n |]; [| reflexivity].
    cbn. destruct n; try reflexivity. lia. }
  unfold App.playGame. rewrite bind_console_log.
  erewrite bind_Ret
    by (apply getUserInput_run; cbn [stdin write_stdout]; exact E).
  cbv beta. rewrite Z. cbn [App.rounds_from].
  unfold bind, ret, console_log, rl_close, write_stdout, set_stdin.
  cbn [stdin entropy drawn stdout stderr rl_closed].
  do 2 f_equal. repeat rewrite <- app_assoc. reflexivity.
Qed.

End Progress.

Lemma throws_reads_leading_number_witness :
  exists w',
    @App.throws toy_runtime (Some die_1_to_6) (Some die_6_to_1)
      (world_of ["2.5"; "4"] [0; 3])
    = Ret (App.roll die_1_to_6
             (App.finalIndex 2 (house_value 6 (world_of ["2.5"; "4"] [0; 3]))),
           App.roll die_6_to_1
             (App.finalIndex 2 (house_value 6 (world_of ["2.5"; "4"] [0; 3]))))
        w'
    /\ stdin w' = ["4"].
Proof.
  apply (@throws_reads_leading_number toy_runtime die_1_to_6 die_6_to_1
           (world_of ["2.5"; "4"] [0; 3]) 2 ".5" ["4"]);
    [lia | reflexivity | reflexivity].
Defined.

Lemma round_runs_witness :
  exists this' w',
    @App.round toy_runtime
      (App.mkDiceGame [die_1_to_6; die_6_to_1] (App.mkScores 0 0)) 0
      (world_of ["maybe"; "7"; "1"; ""; "5"; "left"] [0; 1; 0; 2])
    = Ret this' w'
    /\ stdin w' = ["left"]
    /\ drawn w' = (4 + 0)%nat
    /\ App.diceOptions this' = [die_1_to_6; die_6_to_1]
    /\ gained_at_most 1 (App.mkScores 0 0) (App.scores this').
Proof.
  apply (@round_runs toy_runtime
           (App.mkDiceGame [die_1_to_6; die_6_to_1] (App.mkScores 0 0)) 0
           (world_of ["maybe"; "7"; "1"; ""; "5"; "left"] [0; 1; 0; 2])
           "maybe" ["7"; "1"; ""; "5"; "left"] [""; "5"; "left"] ["left"]
           1 5).
  - split; [| cbn; lia].
    cbn. repeat constructor; cbn; intuition discriminate.
  - reflexivity.
  - reflexivity.
  - reflexivity.
Defined.

Lemma playGame_without_rounds_witness :
  @App.playGame toy_runtime
    (App.mkDiceGame [die_1_to_6; die_6_to_1] (App.mkScores 0 0))
    (world_of ["none"; "1"] [])
  = Ret (App.mkDiceGame [die_1_to_6; die_6_to_1] (App.mkScores 0 0))
      (mkWorld ["1"] (entropy (world_of ["none"; "1"] [])) 0
         ["Starting Non-Transitive Dice Game...";
          "Enter the number of rounds: ";
          "Final Scores - You: 0, Computer: 0";
          "I win the game!"]
         [] true).
Proof.
  apply (@playGame_without_rounds toy_runtime
           (App.mkDiceGame [die_1_to_6; die_6_to_1] (App.mkScores 0 0))
           (world_of ["none"; "1"] []) "none" ["1"]);
    [reflexivity | exact I].
Defined.

(* ================================================================== *)
(** * The program of [part_000]                                        *)
(* ================================================================== *)

Section Part000Program.
Context `{NodeRuntime}.

Lemma Part000_throws_waits (fuel : nat) (pd cd : option Dice) (w : World) :
  first_accepted off_the_die (stdin w) = None ->
  exists w', Part000.throws (S fuel) pd cd w = Pending w'.
Proof.
  intros E. unfold Part000.throws.
  rewrite (bind_Ret _ _ _ _ _ (generateKey_run w)).
  erewrite bind_Ret
    by (rewrite getFairRandom_retry_same;
        apply (getFairRandom_run 6 (key_at w) (advance w) six_in_range)).
  rewrite bind_console_log.
  match goal with
  | |- context [bind _ _ ?w0] =>
      destruct (do_while_parseInt_waits "Add your number modulo 6 (0-5): "
                  off_the_die (stdin w0) w0 E) as [w1 [R _]]
  end.
  run_with R. now eexists.
Qed.

Lemma Part000_playRound_settled (fuel : nat) (pd cd : Dice) (w : World) :
  settled (Part000.playRound (S fuel) (Some pd) (Some cd) w).
Proof.
  unfold Part000.playRound. apply settled_bind.
  - destruct (first_accepted off_the_die (stdin w)) as [[c rest] |] eqn:F.
    + destruct (Part000_throws_run fuel pd cd w c rest F) as [w' [R _]].
      eapply settled_Ret; eassumption.
    + destruct (Part000_throws_waits fuel (Some pd) (Some cd) w F)
        as [w' P].
      eapply settled_Pending; eassumption.
  - intros rolls w1 _. unfold Part000.settle.
    destruct (js_gt _ _); [| destruct (js_lt _ _)]; exact I.
Qed.

Lemma Part000_constructor_playable (args : list string)
    (game : Part000.DiceGame) :
  Part000.DiceGame_constructor args = Ok game ->
  playable (Part000.diceOptions game).
Proof.
  unfold Part000.DiceGame_constructor.
  destruct (Nat.ltb_spec (List.length args) 3) as [L | L]; [discriminate |].
  destruct (new_Dice_each 0 args) as [dice | e] eqn:E; [| discriminate].
  intros [= <-]. cbn.
  destruct (new_Dice_each_Ok _ _ _ E) as [M _].
  split.
  - rewrite M. apply seq_NoDup.
  - rewrite <- (length_map addr), M, length_seq. lia.
Qed.

(** X15.  The program of [part_000], its retry loop allowed at least one
    turn, never ends on an exception either, and its loop is never cut
    off: [main] returns or waits for a line of input. *)
Theorem Part000_main_never_throws (fuel : nat) (args : list string)
    (w : World) :
  settled (Part000.main (S fuel) args w).
Proof.
  unfold Part000.main.
  destruct (Part000.DiceGame_constructor args) as [game | e] eqn:C;
    [| exact I].
  pose proof (Part000_constructor_playable args game C) as P.
  destruct game as [options]. cbn [Part000.diceOptions] in P.
  unfold Part000.start. rewrite bind_console_log.
  apply settled_bind.
  - rewrite Part000_determineFirstMove_same. apply determineFirstMove_settled.
  - intros who w1 _.
    rewrite (bind_same _
               (App.pick_dice (App.mkDiceGame options (App.mkScores 0 0)) who))
      by apply (Part000_pick_dice_same options (App.mkScores 0 0)).
    apply settled_bind; [apply pick_dice_settled |].
    intros dice w2 K.
    destruct (pick_dice_Ret (App.mkDiceGame options (App.mkScores 0 0))
                who w1 w2 dice P K) as [_ [a [b ->]]].
    cbn [fst snd].
    apply settled_bind; [apply Part000_playRound_settled | intros; exact I].
Qed.

(** X17.  [start()] of [part_000] plays one round and ends: on any line as
    the guess, then a line that starts with an index of the options, then a
    line that starts with a number from 0 to 5, each after any number of
    refused lines, it returns with exactly these lines read, 6 random
    numbers drawn (two keys, two numbers and two throws) and the interface
    closed. *)
Theorem Part000_start_runs (fuel : nat) (this : Part000.DiceGame)
    (w : World) (guess : string) (lines lines' rest : list string)
    (choice c : Z) :
  playable (Part000.diceOptions this) ->
  stdin w = guess :: lines ->
  first_accepted (off_the_options (Part000.diceOptions this)) lines
  = Some (choice, lines') ->
  first_accepted off_the_die lines' = Some (c, rest) ->
  exists w',
    Part000.start (S fuel) this w = Ret tt w'
    /\ stdin w' = rest
    /\ drawn w' = (6 + drawn w)%nat
    /\ rl_closed w' = true.
Proof.
  intros P E F1 F2. destruct this as [options].
  cbn [Part000.diceOptions] in P, F1.
  unfold Part000.start. rewrite bind_console_log.
  destruct (determineFirstMove_run
              (write_stdout "Starting Non-Transitive Dice Game..." w)
              guess lines E) as [w1 [R1 [A1 D1]]].
  rewrite <- Part000_determineFirstMove_same with (fuel := fuel) in R1.
  run_with R1. cbv beta iota. rewrite <- A1 in F1.
  match goal with
  | |- context [Part000.pick_dice _ ?who] =>
      destruct (pick_dice_run (App.mkDiceGame options (App.mkScores 0 0))
                  who w1 choice lines' F1) as [dice [w2 [R2 [A2 D2]]]];
      destruct (pick_dice_Ret (App.mkDiceGame options (App.mkScores 0 0))
                  who w1 w2 dice P R2) as [_ [a [b ->]]];
      rewrite <- (Part000_pick_dice_same options (App.mkScores 0 0)) in R2
  end.
  run_with R2. cbv beta iota. cbn [fst snd]. rewrite <- A2 in F2.
  destruct (Part000_throws_run fuel a b w2 c rest F2) as [w3 [R3 [A3 D3]]].
  unfold Part000.playRound. unfold bind at 1. unfold bind at 1.
  rewrite R3. cbv beta iota. cbn [fst snd].
  unfold Part000.settle, rl_close, console_log.
  cbn [drawn write_stdout] in D1.
  destruct (js_gt _ _); [| destruct (js_lt _ _)];
    (eexists; split; [reflexivity |]);
    cbn [stdin drawn rl_closed write_stdout];
    (split; [exact A3 |]); (split; [lia | reflexivity]).
Qed.

End Part000Program.

(* ================================================================== *)
(** * Keys                                                             *)
(* ================================================================== *)

Lemma hex_digit_is_hex (z : Z) : is_hex_char (hex_digit (z mod 16)) = true.
Proof.
  pose proof (Z.mod_pos_bound z 16 ltac:(lia)) as B.
  remember (z mod 16) as d eqn:E. clear E z.
  replace d with (Z.of_nat (Z.to_nat d)) by lia.
  assert (L : (Z.to_nat d < 16)%nat) by lia.
  revert L. generalize (Z.to_nat d). clear d B. intros n L.
  do 16 (destruct n as [| n]; [reflexivity |]). lia.
Qed.

Lemma to_hex_format (n : nat) (z : Z) (acc : string) :
  String.length (to_hex n z acc) = (n + String.length acc)%nat
  /\ (string_forall is_hex_char acc = true ->
      string_forall is_hex_char (to_hex n z acc) = true).
Proof.
  revert z acc. induction n as [| n IH]; intros z acc; cbn [to_hex].
  - split; [reflexivity | auto].
  - destruct (IH (z / 16) (String (hex_digit (z mod 16)) acc)) as [L F].
    split.
    + rewrite L. cbn [String.length]. lia.
    + intros A. apply F. cbn [string_forall].
      now rewrite hex_digit_is_hex, A.
Qed.

(** X16.  [generateKey] makes one request to the source of randomness and
    returns a key of 64 characters, each one of [0] to [9] and [a] to [f]:
    32 bytes in hexadecimal. *)
Theorem generateKey_format (w : World) :
  exists key,
    generateKey w = Ret key (advance w)
    /\ String.length key = 64%nat
    /\ string_forall is_hex_char key = true.
Proof.
  exists (key_at w). split; [apply generateKey_run |].
  unfold key_at.
  destruct (to_hex_format (2 * 32) (entropy w (drawn w) mod 256 ^ Z.of_nat 32)
              "") as [L F].
  split; [exact L | now apply F].
Qed.

Lemma Part000_start_runs_witness :
  exists w',
    @Part000.start toy_runtime 1
      (Part000.mkDiceGame [die_1_to_6; die_6_to_1])
      (world_of ["maybe"; "7"; "1"; ""; "5"; "left"] [0; 1; 0; 2; 4; 4])
    = Ret tt w'
    /\ stdin w' = ["left"]
    /\ drawn w' = (6 + 0)%nat
    /\ rl_closed w' = true.
Proof.
  apply (@Part000_start_runs toy_runtime 0
           (Part000.mkDiceGame [die_1_to_6; die_6_to_1])
           (world_of ["maybe"; "7"; "1"; ""; "5"; "left"] [0; 1; 0; 2; 4; 4])
           "maybe" ["7"; "1"; ""; "5"; "left"] [""; "5"; "left"] ["left"]
           1 5).
  - split; [| cbn; lia].
    cbn. repeat constructor; cbn; intuition discriminate.
  - reflexivity.
  - reflexivity.
  - reflexivity.
Defined.
